(** * qutip/dims_utils.py: nested dims specifications and tensor permutations

    A shallow embedding of [qutip.dims_utils] and the properties of its
    tree utilities, of the dims classifier and of the permutation builder.

    Python values are embedded as follows.
    - A nested list of integers is a [tree]: [Leaf z] is the Python int [z],
      [Node l] the Python list with the elements [l].
    - A function that can raise returns a [result]: [OK v] for a returned
      value, [Err e] for a raised exception [e].
    - Python integers are unbounded, hence [Z]. *)

From Stdlib Require Import ZArith List Bool Lia Permutation.
Import ListNotations.
Open Scope Z_scope.

(** ** Values *)

#[local] Unset Elimination Schemes.
Inductive tree : Type :=
| Leaf (z : Z)
| Node (l : list tree).
#[local] Set Elimination Schemes.

(** Induction on a nested list: the elements of a list satisfy the
    property. *)
Fixpoint tree_nested_ind (P : tree -> Prop)
    (HLeaf : forall z, P (Leaf z))
    (HNode : forall l, Forall P l -> P (Node l))
    (t : tree) : P t :=
  match t with
  | Leaf z => HLeaf z
  | Node l =>
      HNode l
        ((fix all (l : list tree) : Forall P l :=
            match l with
            | [] => Forall_nil P
            | x :: r => Forall_cons x (tree_nested_ind P HLeaf HNode x) (all r)
            end) l)
  end.

(** The exceptions the module can raise. [ValueError] is numpy refusing to
    build an array from a ragged nested list. *)
Inductive error : Type :=
| IndexError
| TypeError
| ValueError
| NotImplementedError.

Inductive result (A : Type) : Type :=
| OK (a : A)
| Err (e : error).
Arguments OK {A} a.
Arguments Err {A} e.

Definition bind {A B} (m : result A) (f : A -> result B) : result B :=
  match m with
  | OK a => f a
  | Err e => Err e
  end.

Declare Scope result_scope.
Delimit Scope result_scope with result.
Notation "x <- m ;; k" := (bind m (fun x => k))
  (at level 61, m at next level, right associativity) : result_scope.
Open Scope result_scope.

(** [list(map(f, l))] for an [f] that can raise: elements are visited from the
    left and the first exception ends the traversal. *)
Fixpoint mapM {A B} (f : A -> result B) (l : list A) : result (list B) :=
  match l with
  | [] => OK []
  | a :: r => b <- f a ;; bs <- mapM f r ;; OK (b :: bs)
  end.

(** [l[i]] on a Python list: a negative [i] counts from the end, and an index
    outside [-len(l) .. len(l)-1] raises [IndexError]. *)
Definition getitem {A} (l : list A) (i : Z) : result A :=
  let n := Z.of_nat (length l) in
  let j := if i <? 0 then i + n else i in
  if (j <? 0) || (n <=? j) then Err IndexError
  else match nth_error l (Z.to_nat j) with
       | Some a => OK a
       | None => Err IndexError
       end.

(** [t[i]] for a literal non-negative [i] on a nested value: an int is not
    subscriptable. *)
Definition item (t : tree) (i : nat) : result tree :=
  match t with
  | Leaf _ => Err TypeError
  | Node l => match nth_error l i with
              | Some x => OK x
              | None => Err IndexError
              end
  end.

(** [isinstance(x, list)] and [isinstance(x, (int, np.integer))]. *)
Definition is_list (t : tree) : bool :=
  match t with Node _ => true | Leaf _ => false end.

Definition is_int (t : tree) : bool :=
  match t with Leaf _ => true | Node _ => false end.

(** Python's [==] on nested lists of ints. *)
Fixpoint tree_eqb (a b : tree) : bool :=
  match a, b with
  | Leaf x, Leaf y => x =? y
  | Node l, Node m =>
      (fix go (l m : list tree) : bool :=
         match l, m with
         | [], [] => true
         | x :: l', y :: m' => tree_eqb x y && go l' m'
         | _, _ => false
         end) l m
  | _, _ => false
  end.

(** ** Generic tree utilities *)

(** [flatten]: [sum(map(flatten, l), [])] concatenates the flattened
    elements. *)
Fixpoint flatten (l : tree) : list Z :=
  match l with
  | Leaf z => [z]
  | Node els => concat (map flatten els)
  end.

(** [_enumerate_flat(l, idx)] returns the labels and the next free index. *)
Fixpoint _enumerate_flat (l : tree) (idx : Z) : tree * Z :=
  match l with
  | Leaf _ => (Leaf idx, idx + 1)
  | Node els =>
      let '(acc, idx') :=
        (fix loop (els : list tree) (idx : Z) : list tree * Z :=
           match els with
           | [] => ([], idx)
           | elem :: rest =>
               let '(labels, idx1) := _enumerate_flat elem idx in
               let '(acc, idx2) := loop rest idx1 in
               (labels :: acc, idx2)
           end) els idx in
      (Node acc, idx')
  end.

(** The loop of [_enumerate_flat] over the elements of a list. *)
Fixpoint enumerate_loop (els : list tree) (idx : Z) : list tree * Z :=
  match els with
  | [] => ([], idx)
  | elem :: rest =>
      let '(labels, idx1) := _enumerate_flat elem idx in
      let '(acc, idx2) := enumerate_loop rest idx1 in
      (labels :: acc, idx2)
  end.

Definition enumerate_flat (l : tree) : tree := fst (_enumerate_flat l 0).

(** [unflatten(l, idxs)]: iterating over an int raises [TypeError]; a list
    element of [idxs] is rebuilt recursively, an int element [idx] is replaced
    by [l[idx]]. *)
Fixpoint unflatten (l : list Z) (idxs : tree) : result tree :=
  match idxs with
  | Leaf _ => Err TypeError
  | Node ixs =>
      acc <- (fix loop (ixs : list tree) : result (list tree) :=
                match ixs with
                | [] => OK []
                | idx :: rest =>
                    x <- match idx with
                         | Node _ => unflatten l idx
                         | Leaf i => v <- getitem l i ;; OK (Leaf v)
                         end ;;
                    acc <- loop rest ;;
                    OK (x :: acc)
                end) ixs ;;
      OK (Node acc)
  end.

(** One element of the loop of [unflatten]. *)
Definition unflatten_elem (l : list Z) (idx : tree) : result tree :=
  match idx with
  | Node _ => unflatten l idx
  | Leaf i => v <- getitem l i ;; OK (Leaf v)
  end.

(** [to_remove in l] and [l.remove(to_remove)] for an int [to_remove]: both
    compare the elements of [l] with [==]; [remove] deletes the first equal
    element. *)
Definition contains (to_remove : Z) (l : list tree) : bool :=
  existsb (fun elem => tree_eqb elem (Leaf to_remove)) l.

Fixpoint list_remove (to_remove : Z) (l : list tree) : list tree :=
  match l with
  | [] => []
  | elem :: rest =>
      if tree_eqb elem (Leaf to_remove) then rest
      else elem :: list_remove to_remove rest
  end.

(** [deep_remove(elem, to_remove)], the call with one target that
    [deep_remove] makes on the elements of a list. *)
Fixpoint deep_remove_one (to_remove : Z) (l : tree) : tree :=
  match l with
  | Leaf _ => l
  | Node els =>
      if contains to_remove els then Node (list_remove to_remove els)
      else Node (map (deep_remove_one to_remove) els)
  end.

(** One iteration of the loop [for to_remove in what] on the current list. *)
Definition deep_remove_step (l : list tree) (to_remove : Z) : list tree :=
  if contains to_remove l then list_remove to_remove l
  else map (deep_remove_one to_remove) l.

(** [deep_remove(l, *what)]; the scalars to remove are ints. *)
Definition deep_remove (l : tree) (what : list Z) : tree :=
  match l with
  | Leaf _ => l
  | Node els => Node (fold_left deep_remove_step what els)
  end.

(** Indices handed to [deep_map]: an int, or a list or a tuple of indices. *)
Inductive ckind : Type := KTuple | KList.

#[local] Unset Elimination Schemes.
Inductive coll : Type :=
| Scalar (i : Z)
| Coll (k : ckind) (els : list coll).
#[local] Set Elimination Schemes.

Fixpoint coll_nested_ind (P : coll -> Prop)
    (HScalar : forall i, P (Scalar i))
    (HColl : forall k els, Forall P els -> P (Coll k els))
    (c : coll) : P c :=
  match c with
  | Scalar i => HScalar i
  | Coll k els =>
      HColl k els
        ((fix all (l : list coll) : Forall P l :=
            match l with
            | [] => Forall_nil P
            | x :: r => Forall_cons x (coll_nested_ind P HScalar HColl x) (all r)
            end) els)
  end.

(** [deep_map(fn, collection, over)]: [over] tells which container kinds are
    traversed; [type(collection)(...)] rebuilds the same kind. *)
Fixpoint deep_map (fn : coll -> result coll) (over : ckind -> bool)
    (collection : coll) : result coll :=
  match collection with
  | Scalar _ => fn collection
  | Coll k els =>
      if over k then
        r <- (fix loop (els : list coll) : result (list coll) :=
                match els with
                | [] => OK []
                | el :: rest =>
                    x <- deep_map fn over el ;;
                    xs <- loop rest ;;
                    OK (x :: xs)
                end) els ;;
        OK (Coll k r)
      else fn collection
  end.

(** The default [over=(tuple, list)]. *)
Definition over_default (k : ckind) : bool := true.

(** [partial(getitem, perm)] on an index: a container is not a valid list
    index. *)
Definition getitem_coll (perm : list Z) (c : coll) : result coll :=
  match c with
  | Scalar i => v <- getitem perm i ;; OK (Scalar v)
  | Coll _ _ => Err TypeError
  end.

(** ** numpy's product *)

(** The shape numpy finds for a nested list; [None] when the list is ragged
    (sub-lists of different shapes, or ints next to lists). *)
Definition shape_eqb (s s' : list nat) : bool :=
  if list_eq_dec Nat.eq_dec s s' then true else false.

Fixpoint np_shape (t : tree) : option (list nat) :=
  match t with
  | Leaf _ => Some []
  | Node els =>
      match els with
      | [] => Some [0%nat]
      | e :: rest =>
          match np_shape e with
          | Some s =>
              if forallb (fun x => match np_shape x with
                                   | Some s' => shape_eqb s s'
                                   | None => false
                                   end) rest
              then Some (length els :: s)
              else None
          | None => None
          end
      end
  end.

Definition list_prod (l : list Z) : Z := fold_right Z.mul 1 l.

(** The integer types numpy gives to an array of Python ints, where the
    default integer has 64 bits: [int64] when every entry fits, [uint64] when
    every entry is non-negative and fits, and otherwise an array of Python
    ints (or of floats, when negative entries stand next to entries from
    [2^63] on). *)
Definition fits_int64 (z : Z) : bool := (- 2 ^ 63 <=? z) && (z <? 2 ^ 63).

Definition fits_uint64 (z : Z) : bool := (0 <=? z) && (z <? 2 ^ 64).

Definition wrap_int64 (z : Z) : Z := (z + 2 ^ 63) mod 2 ^ 64 - 2 ^ 63.

(** The product numpy returns for the entries [l]: an [int64] or [uint64]
    array is multiplied in its own type and wraps around; Python ints are
    multiplied exactly. For an array of floats the exact product stands in:
    it is 1 exactly when the float product is, namely never, since with an
    entry of at least [2^63] the product is 0 or at least [2^63] in absolute
    value. *)
Definition np_multiply_reduce (l : list Z) : Z :=
  if forallb fits_int64 l then wrap_int64 (list_prod l)
  else if forallb fits_uint64 l then list_prod l mod 2 ^ 64
  else list_prod l.

(** [np.prod(x)]: numpy first builds an array from [x], which for a nested
    list needs all the sub-lists of a level to have one shape; on a ragged
    list it raises ([ValueError], inhomogeneous shape; older releases build an
    array of list objects and raise [TypeError] when they multiply two of
    them). The result is the product of all the entries, 1 for an empty
    array, computed in the type of the array. *)
Definition np_prod (x : tree) : result Z :=
  match np_shape x with
  | Some _ => OK (np_multiply_reduce (flatten x))
  | None => Err ValueError
  end.

(** ** Dims classifier *)

Inductive kind : Type :=
| bra | ket | operator_bra | operator_ket | oper | super | other.

(** [a and b], [a or b] and [if a: x else: y] when evaluating [a] or [b] can
    raise: the right operand is evaluated only when needed. *)
Definition and_then (a b : result bool) : result bool :=
  match a with
  | OK true => b
  | OK false => OK false
  | Err e => Err e
  end.

Definition or_else (a b : result bool) : result bool :=
  match a with
  | OK true => OK true
  | OK false => b
  | Err e => Err e
  end.

Definition ite {A} (c : result bool) (x y : result A) : result A :=
  match c with
  | OK true => x
  | OK false => y
  | Err e => Err e
  end.

Infix "&&&" := and_then (at level 40, left associativity) : result_scope.
Infix "|||" := or_else (at level 50, left associativity) : result_scope.

(** The tests of [type_from_dims] on [dims[i]]. *)
Definition prod_is_1 (dims : tree) (i : nat) : result bool :=
  d <- item dims i ;; p <- np_prod d ;; OK (p =? 1).

Definition side_is_list (dims : tree) (i : nat) : result bool :=
  d <- item dims i ;; OK (is_list d).

Definition first_is_int (dims : tree) (i : nat) : result bool :=
  d <- item dims i ;; x <- item d 0 ;; OK (is_int x).

Definition first_is_list (dims : tree) (i : nat) : result bool :=
  d <- item dims i ;; x <- item d 0 ;; OK (is_list x).

Definition sides_equal (dims : tree) : result bool :=
  a <- item dims 0 ;; b <- item dims 1 ;; OK (tree_eqb a b).

Definition firsts_equal (dims : tree) : result bool :=
  a <- item dims 0 ;; a0 <- item a 0 ;;
  b <- item dims 1 ;; b0 <- item b 0 ;; OK (tree_eqb a0 b0).

(** The six tests of the [if]/[elif] chain, in its order. *)
Definition bra_pattern (dims : tree) : result bool :=
  prod_is_1 dims 0 &&& side_is_list dims 1 &&& first_is_int dims 1.

Definition ket_pattern (dims : tree) : result bool :=
  prod_is_1 dims 1 &&& side_is_list dims 0 &&& first_is_int dims 0.

Definition operator_bra_pattern (dims : tree) : result bool :=
  prod_is_1 dims 0 &&& side_is_list dims 1 &&& first_is_list dims 1.

Definition operator_ket_pattern (dims : tree) : result bool :=
  prod_is_1 dims 1 &&& side_is_list dims 0 &&& first_is_list dims 0.

Definition oper_pattern (dims : tree) (enforce_square : bool) : result bool :=
  side_is_list dims 0 &&& first_is_int dims 0 &&&
  (sides_equal dims ||| OK (negb enforce_square)).

Definition super_pattern (dims : tree) (enforce_square : bool) : result bool :=
  side_is_list dims 0 &&& first_is_list dims 0 &&&
  ((sides_equal dims &&& firsts_equal dims) ||| OK (negb enforce_square)).

Definition type_from_dims (dims : tree) (enforce_square : bool) : result kind :=
  ite (bra_pattern dims) (OK bra)
  (ite (ket_pattern dims) (OK ket)
  (ite (operator_bra_pattern dims) (OK operator_bra)
  (ite (operator_ket_pattern dims) (OK operator_ket)
  (ite (oper_pattern dims enforce_square) (OK oper)
  (ite (super_pattern dims enforce_square) (OK super)
  (OK other)))))).

(** ** Permutation builder *)

(** [list(reversed(x))]: an int is not reversible. *)
Definition reversed (x : tree) : result tree :=
  match x with
  | Node l => OK (Node (rev l))
  | Leaf _ => Err TypeError
  end.

(** [t[i] = v] for a literal non-negative [i]. *)
Definition setitem (t : tree) (i : nat) (v : tree) : result tree :=
  match t with
  | Leaf _ => Err TypeError
  | Node l =>
      if (i <? length l)%nat
      then OK (Node (firstn i l ++ v :: skipn (S i) l))
      else Err IndexError
  end.

(** [perm[i] = list(reversed(perm[i]))]. *)
Definition reverse_branch (perm : tree) (i : nat) : result tree :=
  p <- item perm i ;; r <- reversed p ;; setitem perm i r.

Definition in_oper_ket_bra (k : kind) : bool :=
  match k with oper | ket | bra => true | _ => false end.

Definition in_operator_ket_super (k : kind) : bool :=
  match k with operator_ket | super => true | _ => false end.

Definition in_operator_bra_super (k : kind) : bool :=
  match k with operator_bra | super => true | _ => false end.

(** The two conditional swaps at the end of [dims_to_tensor_perm]: the right
    part [perm[1]] first, then the left part [perm[0]]. *)
Definition vectorization_correction (dims_type : kind) (perm : tree)
    : result tree :=
  perm1 <- (if in_operator_ket_super dims_type
            then reverse_branch perm 1 else OK perm) ;;
  (if in_operator_bra_super dims_type
   then reverse_branch perm1 0 else OK perm1).

(** The part of [dims_to_tensor_perm] after the classification. *)
Definition perm_of_kind (dims_type : kind) (dims : tree) : result (list Z) :=
  let perm := enumerate_flat dims in
  if in_oper_ket_bra dims_type then OK (flatten perm)
  else match dims_type with
       | other => Err NotImplementedError
       | _ =>
           perm' <- vectorization_correction dims_type perm ;;
           OK (flatten perm')
       end.

Definition dims_to_tensor_perm (dims : tree) : result (list Z) :=
  dims_type <- type_from_dims dims false ;;
  perm_of_kind dims_type dims.

(** ** Shape and index projection *)

Definition dims_to_tensor_shape (dims : tree) : result (list Z) :=
  perm <- dims_to_tensor_perm dims ;;
  let dims := flatten dims in
  mapM (getitem dims) perm.

Definition dims_idxs_to_tensor_idxs (dims : tree) (indices : coll)
    : result coll :=
  perm <- dims_to_tensor_perm dims ;;
  deep_map (getitem_coll perm) over_default indices.

(** ** The data model of a dims specification *)

(** Holds of every flat, non-empty sequence of positive integers: the list
    is non-empty and its elements after the first are positive ints. The
    first element is not constrained, so a statement made under [dims_spec]
    covers every dims specification of the data model, and more. *)
Definition is_flat_seq (t : tree) : bool :=
  match t with
  | Node (_ :: _ as l) =>
      forallb (fun e => match e with Leaf z => 0 <? z | Node _ => false end) l
  | _ => false
  end.

(** One side: a flat sequence, or a pair of flat sequences. *)
Definition is_side (t : tree) : bool :=
  is_flat_seq t ||
  match t with
  | Node [a; b] => is_flat_seq a && is_flat_seq b
  | _ => false
  end.

(** A dims specification: the two-element list [[row, col]]. *)
Definition dims_spec (dims : tree) : bool :=
  match dims with
  | Node [row; col] => is_side row && is_side col
  | _ => false
  end.

(** numpy can build an array from the value. *)
Definition rectangular (t : tree) : bool :=
  match np_shape t with Some _ => true | None => false end.

(** Both sides of a dims specification are rectangular. *)
Definition rect_sides (dims : tree) : bool :=
  match dims with
  | Node [row; col] => rectangular row && rectangular col
  | _ => false
  end.

(** The integers [start, start+1, ..., start+n-1]. *)
Fixpoint zrange (start : Z) (n : nat) : list Z :=
  match n with
  | O => []
  | S n' => start :: zrange (start + 1) n'
  end.

(** The labels [0 .. N-1] of the leaves of [t]. *)
Definition labels_of (t : tree) : list Z := zrange 0 (length (flatten t)).

(** The number of direct elements of a list equal to the int [to_remove]. *)
Definition count_direct (to_remove : Z) (l : list tree) : nat :=
  length (filter (fun elem => tree_eqb elem (Leaf to_remove)) l).

(** The value found by following a path of positions from the top. *)
Fixpoint sub_at (path : list nat) (t : tree) : option tree :=
  match path with
  | [] => Some t
  | i :: rest =>
      match t with
      | Leaf _ => None
      | Node l => match nth_error l i with
                  | Some x => sub_at rest x
                  | None => None
                  end
      end
  end.

(** ** Nested indices *)

(** The ints of a nested index structure, from left to right. *)
Fixpoint leaves (c : coll) : list Z :=
  match c with
  | Scalar i => [i]
  | Coll _ els => concat (map leaves els)
  end.

(** The structure [c] with every int [i] replaced by [f i]; container kinds
    and lengths are kept. *)
Fixpoint coll_map (f : Z -> Z) (c : coll) : coll :=
  match c with
  | Scalar i => Scalar (f i)
  | Coll k els => Coll k (map (coll_map f) els)
  end.

(** The indices a Python list of length [n] accepts, and the position an
    accepted index denotes. *)
Definition index_ok (n : Z) (i : Z) : bool := (- n <=? i) && (i <? n).

Definition index_pos (n : Z) (i : Z) : nat :=
  Z.to_nat (if i <? 0 then i + n else i).

(** [perm[i]] for an accepted index [i]. *)
Definition perm_at (perm : list Z) (i : Z) : Z :=
  nth (index_pos (Z.of_nat (length perm)) i) perm 0.

(** The positions, in the flattening of the labels of [dims], that belong to
    the second sub-branch of each half: those of [perm[0][1]] and of
    [perm[1][1]]. *)
Definition second_subbranch_positions (dims : tree) : result (list Z) :=
  let perm := enumerate_flat dims in
  row <- item perm 0 ;; row1 <- item row 1 ;;
  col <- item perm 1 ;; col1 <- item col 1 ;;
  OK (flatten row1 ++ flatten col1).

(** ** Example values *)

(** A flat list of ints. *)
Definition ints (l : list Z) : tree := Node (map Leaf l).

(** [[[2, 3], [2, 3]]] *)
Definition dims_oper_23 : tree := Node [ints [2; 3]; ints [2; 3]].

(** [[[4], [1]]] *)
Definition dims_ket_4 : tree := Node [ints [4]; ints [1]].

(** [[[1], [1]]] *)
Definition dims_unit : tree := Node [ints [1]; ints [1]].

(** [[[[2, 3], [2, 3]], [[2, 3], [2, 3]]]] *)
Definition dims_super_23 : tree :=
  Node [Node [ints [2; 3]; ints [2; 3]]; Node [ints [2; 3]; ints [2; 3]]].

(** [[[[[0, 1, 2]], [3, 4], [5], [6, 7]]]], the example of the docstring of
    [deep_remove], and its expected result. *)
Definition deep_remove_input : tree :=
  Node [Node [Node [ints [0; 1; 2]]; ints [3; 4]; ints [5]; ints [6; 7]]].

Definition deep_remove_output : tree :=
  Node [Node [Node [ints [1; 2]]; ints [3; 4]; ints []; ints [6; 7]]].

(** [[[[2, 3], [4]], [1]]]: the dims of a vectorized 6 x 4 operator. *)
Definition dims_ragged : tree := Node [Node [ints [2; 3]; ints [4]]; ints [1]].

(** ** Invariants of the traversals *)

(** The labels of a value starting at [idx] are [idx, idx+1, ...] in
    flattening order, and the returned index is the next free one. *)
Definition enumerate_ok (t : tree) : Prop :=
  forall idx,
    snd (_enumerate_flat t idx) = idx + Z.of_nat (length (flatten t)) /\
    flatten (fst (_enumerate_flat t idx)) = zrange idx (length (flatten t)).

(** Rebuilding a value from its labels inside a longer flat list: the labels
    start at the length of what precedes its leaves. *)
Definition unflatten_ok (t : tree) : Prop :=
  forall pre post,
    unflatten_elem (pre ++ flatten t ++ post)
      (fst (_enumerate_flat t (Z.of_nat (length pre)))) = OK t.

(** ** Shapes *)

(** The value [t] with every int [z] replaced by [f z]. *)
Fixpoint tree_map (f : Z -> Z) (t : tree) : tree :=
  match t with
  | Leaf z => Leaf (f z)
  | Node l => Node (map (tree_map f) l)
  end.

(** The nesting of a value, its ints forgotten: two values are isomorphic
    when their shapes are equal. *)
Definition shape_of (t : tree) : tree := tree_map (fun _ => 0) t.

(** The lists of a value, its ints dropped. *)
Fixpoint skeleton (t : tree) : tree :=
  match t with
  | Leaf _ => t
  | Node els =>
      Node (flat_map (fun elem => match elem with
                                  | Leaf _ => []
                                  | Node _ => [skeleton elem]
                                  end) els)
  end.

(** [z] is one of the targets [what]. *)
Definition is_target (what : list Z) (z : Z) : bool :=
  existsb (Z.eqb z) what.

(** [[[[2, 3], [4, 5]], [[6, 7], [8, 9]]]] *)
Definition dims_super_mixed : tree :=
  Node [Node [ints [2; 3]; ints [4; 5]]; Node [ints [6; 7]; ints [8; 9]]].

(** [[[[2, 3], [2, 3]], [1]]] and [[[1], [[2, 3], [2, 3]]]] *)
Definition dims_operator_ket : tree :=
  Node [Node [ints [2; 3]; ints [2; 3]]; ints [1]].

Definition dims_operator_bra : tree :=
  Node [ints [1]; Node [ints [2; 3]; ints [2; 3]]].

(** * Properties *)

(** ** Results and list access *)

Lemma bind_OK {A B} (m : result A) (f : A -> result B) (b : B) :
  bind m f = OK b -> exists a, m = OK a /\ f a = OK b.
Proof.
  destruct m as [a|e]; simpl; intros H; [eauto | discriminate].
Qed.

Lemma getitem_middle {A} (pre post : list A) (x : A) :
  getitem (pre ++ x :: post) (Z.of_nat (length pre)) = OK x.
Proof.
  unfold getitem.
  rewrite length_app; cbn [length].
  destruct (Z.ltb_spec (Z.of_nat (length pre)) 0) as [Hneg|_]; [lia|].
  destruct (Z.ltb_spec (Z.of_nat (length pre)) 0) as [Hneg|_]; [lia|].
  destruct (Z.leb_spec (Z.of_nat (length pre + S (length post)))
              (Z.of_nat (length pre))) as [Hbig|_]; [lia|].
  cbn [orb]. rewrite Nat2Z.id, nth_error_app2 by lia.
  now rewrite Nat.sub_diag.
Qed.

Lemma getitem_in_range {A} (l : list A) (i : Z) :
  0 <= i < Z.of_nat (length l) ->
  exists a, getitem l i = OK a /\ nth_error l (Z.to_nat i) = Some a.
Proof.
  intros Hi. unfold getitem.
  destruct (Z.ltb_spec i 0) as [Hneg|_]; [lia|].
  destruct (Z.ltb_spec i 0) as [Hneg|_]; [lia|].
  destruct (Z.leb_spec (Z.of_nat (length l)) i) as [Hbig|_]; [lia|].
  cbn [orb].
  destruct (nth_error l (Z.to_nat i)) as [a|] eqn:E; [eauto|].
  apply nth_error_None in E. lia.
Qed.

(** ** [zrange] *)

Lemma zrange_length start n : length (zrange start n) = n.
Proof.
  revert start. induction n as [|n IH]; intros start; simpl; [|rewrite IH];
    reflexivity.
Qed.

Lemma zrange_app start n m :
  zrange start (n + m) = zrange start n ++ zrange (start + Z.of_nat n) m.
Proof.
  revert start. induction n as [|n IH]; intros start.
  - simpl. now rewrite Z.add_0_r.
  - cbn [Nat.add zrange app]. rewrite IH. do 3 f_equal. lia.
Qed.

Lemma zrange_seq start n :
  zrange (Z.of_nat start) n = map Z.of_nat (seq start n).
Proof.
  revert start. induction n as [|n IH]; intros start; simpl; [reflexivity|].
  f_equal. rewrite <- IH. f_equal. lia.
Qed.

Lemma zrange_In start n x : In x (zrange start n) <-> start <= x < start + Z.of_nat n.
Proof.
  revert start. induction n as [|n IH]; intros start; simpl.
  - split; [tauto | lia].
  - rewrite IH. lia.
Qed.

Lemma zrange_NoDup start n : NoDup (zrange start n).
Proof.
  revert start. induction n as [|n IH]; intros start; simpl; constructor.
  - rewrite zrange_In. lia.
  - apply IH.
Qed.

(** ** [enumerate_flat] *)

Lemma _enumerate_flat_Node els idx :
  _enumerate_flat (Node els) idx =
  (Node (fst (enumerate_loop els idx)), snd (enumerate_loop els idx)).
Proof.
  cbn [_enumerate_flat].
  change ((fix loop (els : list tree) (idx : Z) : list tree * Z :=
           match els with
           | [] => ([], idx)
           | elem :: rest =>
               let '(labels, idx1) := _enumerate_flat elem idx in
               let '(acc, idx2) := loop rest idx1 in
               (labels :: acc, idx2)
           end) els idx) with (enumerate_loop els idx).
  now destruct (enumerate_loop els idx).
Qed.

Lemma enumerate_loop_cons elem rest idx :
  enumerate_loop (elem :: rest) idx =
  (fst (_enumerate_flat elem idx)
     :: fst (enumerate_loop rest (snd (_enumerate_flat elem idx))),
   snd (enumerate_loop rest (snd (_enumerate_flat elem idx)))).
Proof.
  cbn [enumerate_loop].
  destruct (_enumerate_flat elem idx) as [labels idx1]. cbn [fst snd].
  now destruct (enumerate_loop rest idx1).
Qed.

Lemma enumerate_loop_ok els :
  Forall enumerate_ok els ->
  forall idx,
    snd (enumerate_loop els idx)
      = idx + Z.of_nat (length (concat (map flatten els))) /\
    concat (map flatten (fst (enumerate_loop els idx)))
      = zrange idx (length (concat (map flatten els))).
Proof.
  induction 1 as [|elem rest Helem _ IH]; intros idx.
  - cbn. split; [lia | reflexivity].
  - rewrite enumerate_loop_cons. cbn [fst snd map concat].
    destruct (Helem idx) as [Hs Hf].
    destruct (IH (snd (_enumerate_flat elem idx))) as [Hs' Hf'].
    rewrite Hs', Hf', Hf, Hs, length_app, zrange_app.
    split; [lia | reflexivity].
Qed.

Lemma enumerate_spec t : enumerate_ok t.
Proof.
  induction t as [z|els IH] using tree_nested_ind; intros idx.
  - cbn. split; [lia | reflexivity].
  - rewrite _enumerate_flat_Node. cbn [fst snd flatten].
    now apply enumerate_loop_ok.
Qed.

Lemma flatten_enumerate_flat t : flatten (enumerate_flat t) = labels_of t.
Proof. unfold enumerate_flat, labels_of. apply enumerate_spec. Qed.

(** ** [unflatten] inverts [flatten] on lists *)

Lemma unflatten_Node l ixs :
  unflatten l (Node ixs) =
  (acc <- mapM (unflatten_elem l) ixs ;; OK (Node acc)).
Proof.
  cbn [unflatten]. f_equal.
  induction ixs as [|idx rest IH]; [reflexivity|].
  cbn [mapM]. rewrite <- IH. reflexivity.
Qed.

Lemma unflatten_loop_ok els :
  Forall unflatten_ok els ->
  forall pre post,
    mapM (unflatten_elem (pre ++ concat (map flatten els) ++ post))
      (fst (enumerate_loop els (Z.of_nat (length pre)))) = OK els.
Proof.
  induction 1 as [|elem rest Helem _ IH]; intros pre post; [reflexivity|].
  rewrite enumerate_loop_cons. cbn [fst snd map concat mapM].
  rewrite <- app_assoc.
  rewrite (Helem pre (concat (map flatten rest) ++ post)). cbn [bind].
  destruct (enumerate_spec elem (Z.of_nat (length pre))) as [-> _].
  rewrite <- Nat2Z.inj_add, <- length_app.
  rewrite (app_assoc pre (flatten elem)), IH. reflexivity.
Qed.

Lemma unflatten_elem_ok t : unflatten_ok t.
Proof.
  induction t as [z|els IH] using tree_nested_ind; intros pre post.
  - cbn. now rewrite getitem_middle.
  - rewrite _enumerate_flat_Node. cbn [fst unflatten_elem flatten].
    rewrite unflatten_Node, (unflatten_loop_ok els IH pre post).
    reflexivity.
Qed.

(** C3 (as amended): for every nested list [t] (a list at the top level),
    [unflatten(flatten(t), enumerate_flat(t))] returns [t]. *)
Theorem unflatten_flatten_enumerate (els : list tree) :
  unflatten (flatten (Node els)) (enumerate_flat (Node els)) = OK (Node els).
Proof.
  pose proof (unflatten_elem_ok (Node els) [] []) as H.
  cbn [app length Z.of_nat] in H. rewrite app_nil_r in H.
  unfold enumerate_flat. rewrite _enumerate_flat_Node in *. exact H.
Qed.

(** C3 fails on a bare scalar: [flatten(5)] is [[5]] and
    [enumerate_flat(5)] is the int [0], over which [unflatten] cannot
    iterate. *)
Lemma unflatten_scalar_raises :
  flatten (Leaf 5) = [5] /\
  enumerate_flat (Leaf 5) = Leaf 0 /\
  unflatten (flatten (Leaf 5)) (enumerate_flat (Leaf 5)) = Err TypeError /\
  unflatten (flatten (Leaf 5)) (enumerate_flat (Leaf 5)) <> OK (Leaf 5).
Proof. repeat split; discriminate. Qed.

(** ** The vectorization correction permutes the labels *)

Lemma flatten_Node_app l1 l2 :
  flatten (Node (l1 ++ l2)) = flatten (Node l1) ++ flatten (Node l2).
Proof. cbn [flatten]. now rewrite map_app, concat_app. Qed.

Lemma flatten_Node_cons x l :
  flatten (Node (x :: l)) = flatten x ++ flatten (Node l).
Proof. reflexivity. Qed.

Lemma flatten_rev l : Permutation (flatten (Node (rev l))) (flatten (Node l)).
Proof.
  cbn [flatten]. rewrite <- !flat_map_concat_map.
  apply Permutation_flat_map. symmetry. apply Permutation_rev.
Qed.

Lemma firstn_length_app {A} (l1 l2 : list A) :
  firstn (length l1) (l1 ++ l2) = l1.
Proof. induction l1 as [|a l1 IH]; cbn; [now destruct l2 | now rewrite IH]. Qed.

Lemma skipn_S_length_app {A} (l1 l2 : list A) (x : A) :
  skipn (S (length l1)) (l1 ++ x :: l2) = l2.
Proof. induction l1 as [|a l1 IH]; cbn; [reflexivity | exact IH]. Qed.

Lemma setitem_middle l1 l2 x v :
  setitem (Node (l1 ++ x :: l2)) (length l1) v = OK (Node (l1 ++ v :: l2)).
Proof.
  unfold setitem. rewrite length_app. cbn [length].
  destruct (Nat.ltb_spec (length l1) (length l1 + S (length l2))) as [_|Hge];
    [|lia].
  now rewrite firstn_length_app, skipn_S_length_app.
Qed.

Lemma item_middle l1 l2 x : item (Node (l1 ++ x :: l2)) (length l1) = OK x.
Proof.
  unfold item. now rewrite nth_error_app2, Nat.sub_diag by lia.
Qed.

(** What [perm[i] = list(reversed(perm[i]))] does when it succeeds. *)
Lemma reverse_branch_OK perm i perm' :
  reverse_branch perm i = OK perm' ->
  exists l1 m l2,
    length l1 = i /\
    perm = Node (l1 ++ Node m :: l2) /\
    perm' = Node (l1 ++ Node (rev m) :: l2).
Proof.
  unfold reverse_branch. intros H.
  apply bind_OK in H as (p & Hitem & H).
  apply bind_OK in H as (r & Hrev & Hset).
  destruct perm as [z|l]; [discriminate|].
  unfold item in Hitem.
  destruct (nth_error l i) as [p'|] eqn:Hnth; [|discriminate].
  injection Hitem as ->.
  destruct p as [z|m]; [discriminate|]. injection Hrev as <-.
  destruct (nth_error_split l i Hnth) as (l1 & l2 & -> & Hlen).
  rewrite <- Hlen, setitem_middle in Hset. injection Hset as <-.
  exists l1, m, l2. auto.
Qed.

Lemma reverse_branch_flatten perm i perm' :
  reverse_branch perm i = OK perm' ->
  Permutation (flatten perm') (flatten perm).
Proof.
  intros H. apply reverse_branch_OK in H as (l1 & m & l2 & _ & -> & ->).
  rewrite !flatten_Node_app, !flatten_Node_cons.
  apply Permutation_app_head, Permutation_app_tail, flatten_rev.
Qed.

(** Reversing the same branch twice restores the labels. *)
Lemma reverse_branch_involutive perm i perm' :
  reverse_branch perm i = OK perm' -> reverse_branch perm' i = OK perm.
Proof.
  intros H. apply reverse_branch_OK in H as (l1 & m & l2 & <- & -> & ->).
  unfold reverse_branch. rewrite item_middle. cbn [bind reversed].
  now rewrite setitem_middle, rev_involutive.
Qed.

Lemma vectorization_correction_flatten k perm perm' :
  vectorization_correction k perm = OK perm' ->
  Permutation (flatten perm') (flatten perm).
Proof.
  unfold vectorization_correction. intros H.
  apply bind_OK in H as (perm1 & H1 & H0).
  transitivity (flatten perm1).
  - destruct (in_operator_bra_super k).
    + eapply reverse_branch_flatten; eassumption.
    + injection H0 as <-. reflexivity.
  - destruct (in_operator_ket_super k).
    + eapply reverse_branch_flatten; eassumption.
    + injection H1 as <-. reflexivity.
Qed.

Lemma perm_of_kind_permutation k dims p :
  perm_of_kind k dims = OK p -> Permutation p (labels_of dims).
Proof.
  unfold perm_of_kind. rewrite <- flatten_enumerate_flat.
  destruct (in_oper_ket_bra k).
  - intros [= <-]. reflexivity.
  - destruct k; try discriminate; intros H;
      apply bind_OK in H as (perm' & H & [= <-]);
      eapply vectorization_correction_flatten; eassumption.
Qed.

(** Whenever [dims_to_tensor_perm] returns, on any nested value, the result
    is a rearrangement of the labels [0 .. N-1]. *)
Lemma dims_to_tensor_perm_permutation dims p :
  dims_to_tensor_perm dims = OK p -> Permutation p (labels_of dims).
Proof.
  unfold dims_to_tensor_perm. intros H.
  apply bind_OK in H as (k & _ & H).
  eapply perm_of_kind_permutation; eassumption.
Qed.

(** On a two-element list of lists, every kind but [other] yields a
    result. *)
Lemma enumerate_flat_two_lists r c :
  exists r' c', enumerate_flat (Node (Node r :: Node c :: nil))
                = Node (Node r' :: Node c' :: nil).
Proof.
  unfold enumerate_flat.
  rewrite _enumerate_flat_Node, !enumerate_loop_cons, !_enumerate_flat_Node.
  cbn [fst snd enumerate_loop]. eauto.
Qed.

Lemma perm_of_kind_returns k r c :
  k <> other ->
  exists p, perm_of_kind k (Node (Node r :: Node c :: nil)) = OK p.
Proof.
  intros Hk. unfold perm_of_kind.
  destruct (enumerate_flat_two_lists r c) as (r' & c' & ->).
  destruct k; cbn; eauto. contradiction.
Qed.

Lemma is_side_list t : is_side t = true -> exists x l, t = Node (x :: l).
Proof.
  unfold is_side, is_flat_seq.
  destruct t as [z|[|x l]]; cbn; [discriminate|discriminate|eauto].
Qed.

Lemma dims_spec_sides dims :
  dims_spec dims = true ->
  exists row col, dims = Node (row :: col :: nil) /\
                  is_side row = true /\ is_side col = true.
Proof.
  unfold dims_spec.
  destruct dims as [z|[|row [|col [|x l]]]]; try discriminate.
  intros H. apply andb_prop in H. eauto.
Qed.

Lemma labels_of_seq t :
  labels_of t = map Z.of_nat (seq 0 (length (flatten t))).
Proof. unfold labels_of. apply (zrange_seq 0). Qed.

(** ** The permutation builder *)

(** C2 (as amended): for the ['super'] dims [[[2,3],[2,3]],[[2,3],[2,3]]],
    [dims_to_tensor_perm] swaps the two sub-sequences inside the row branch
    and inside the column branch of the labels before flattening; the result
    [2,3,0,1,6,7,4,5] differs from the plain enumeration [0..7] at every
    position, and applying the correction twice restores the enumeration. *)
Theorem super_vectorization_correction :
  type_from_dims dims_super_23 false = OK super /\
  enumerate_flat dims_super_23
    = Node [Node [ints [0; 1]; ints [2; 3]]; Node [ints [4; 5]; ints [6; 7]]] /\
  vectorization_correction super (enumerate_flat dims_super_23)
    = OK (Node [Node [ints [2; 3]; ints [0; 1]];
                Node [ints [6; 7]; ints [4; 5]]]) /\
  dims_to_tensor_perm dims_super_23 = OK [2; 3; 0; 1; 6; 7; 4; 5] /\
  flatten (enumerate_flat dims_super_23) = [0; 1; 2; 3; 4; 5; 6; 7] /\
  (forall i, (i < 8)%nat ->
     nth i [2; 3; 0; 1; 6; 7; 4; 5] 0
       <> nth i (flatten (enumerate_flat dims_super_23)) 0) /\
  (perm' <- vectorization_correction super (enumerate_flat dims_super_23) ;;
   vectorization_correction super perm') = OK (enumerate_flat dims_super_23).
Proof.
  repeat split.
  intros i Hi.
  do 8 (destruct i as [|i]; [cbn; discriminate|]). lia.
Qed.

(** C2 as stated fails: position 0 lies in the first sub-branch of the row
    half (the second sub-branches hold the positions 2, 3, 6 and 7), and the
    permutation differs from the enumeration there too. *)
Lemma super_correction_differs_outside_second_subbranch :
  second_subbranch_positions dims_super_23 = OK [2; 3; 6; 7] /\
  ~ (forall p, dims_to_tensor_perm dims_super_23 = OK p ->
     forall i, 0 <= i < 8 ->
       (nth (Z.to_nat i) p 0
          <> nth (Z.to_nat i) (flatten (enumerate_flat dims_super_23)) 0
        <-> In i [2; 3; 6; 7])).
Proof.
  split; [reflexivity|].
  intros H. specialize (H _ eq_refl 0 ltac:(lia)).
  destruct H as [H _].
  assert (Hin : In 0 [2; 3; 6; 7]) by (apply H; cbn; discriminate).
  cbn in Hin. lia.
Qed.

(** C4 (as amended): the permutation covers the leaves of both branches:
    for [[[2,3],[2,3]]] (kind ['oper']) it is [0,1,2,3], and for [[[4],[1]]]
    (kind ['ket']) it is [0,1]. *)
Theorem identity_permutations :
  type_from_dims dims_oper_23 true = OK oper /\
  type_from_dims dims_oper_23 false = OK oper /\
  dims_to_tensor_perm dims_oper_23 = OK [0; 1; 2; 3] /\
  type_from_dims dims_ket_4 true = OK ket /\
  type_from_dims dims_ket_4 false = OK ket /\
  dims_to_tensor_perm dims_ket_4 = OK [0; 1].
Proof. repeat split. Qed.

(** C4 as stated fails: the results are not [0,1] and [0]. *)
Lemma identity_permutations_not_half :
  dims_to_tensor_perm dims_oper_23 <> OK [0; 1] /\
  dims_to_tensor_perm dims_ket_4 <> OK [0].
Proof. split; discriminate. Qed.

(** ** The tensor shape *)

Lemma mapM_OK {A B} (f : A -> result B) (l : list A) (r : list B) :
  mapM f l = OK r -> Forall2 (fun a b => f a = OK b) l r.
Proof.
  revert r. induction l as [|a l IH]; intros r H.
  - injection H as <-. constructor.
  - cbn [mapM] in H.
    apply bind_OK in H as (b & Hb & H).
    apply bind_OK in H as (bs & Hbs & [= <-]).
    constructor; auto.
Qed.

Lemma mapM_returns {A B} (f : A -> result B) (l : list A) :
  Forall (fun a => exists b, f a = OK b) l -> exists r, mapM f l = OK r.
Proof.
  induction 1 as [|a l (b & Hb) _ (bs & Hbs)]; cbn [mapM]; [eauto|].
  rewrite Hb, Hbs. cbn. eauto.
Qed.

Lemma Forall2_nth_error_left {A B} (R : A -> B -> Prop) l r i b :
  Forall2 R l r -> nth_error r i = Some b ->
  exists a, nth_error l i = Some a /\ R a b.
Proof.
  intros H. revert i. induction H as [|a' b' l r Hab _ IH]; intros i Hi.
  - destruct i; discriminate.
  - destruct i as [|i]; cbn in *; [injection Hi as <-; eauto | auto].
Qed.

(** C5 (as amended): when [dims_to_tensor_perm(dims)] returns [perm],
    [dims_to_tensor_shape(dims)] returns a shape as long as [flatten(dims)]
    whose i-th entry is [flatten(dims)[perm[i]]]; for [[[2,3],[2,3]]] the
    shape is [(2, 3, 2, 3)]. *)
Theorem dims_to_tensor_shape_spec (dims : tree) (perm : list Z) :
  dims_to_tensor_perm dims = OK perm ->
  (exists shape,
     dims_to_tensor_shape dims = OK shape /\
     length shape = length (flatten dims) /\
     forall i v, nth_error shape i = Some v ->
       exists j, nth_error perm i = Some j /\
                 0 <= j < Z.of_nat (length (flatten dims)) /\
                 nth_error (flatten dims) (Z.to_nat j) = Some v) /\
  dims_to_tensor_shape dims_oper_23 = OK [2; 3; 2; 3].
Proof.
  intros Hperm. split; [|reflexivity].
  pose proof (dims_to_tensor_perm_permutation _ _ Hperm) as HP.
  assert (Hrange : forall j, In j perm ->
                     0 <= j < Z.of_nat (length (flatten dims))).
  { intros j Hj. apply (Permutation_in _ HP), zrange_In in Hj. lia. }
  assert (Hall : Forall (fun j => exists v, getitem (flatten dims) j = OK v)
                   perm).
  { apply Forall_forall. intros j Hj.
    destruct (getitem_in_range (flatten dims) j (Hrange j Hj))
      as (v & Hv & _). eauto. }
  apply mapM_returns in Hall as (shape & Hshape).
  exists shape. unfold dims_to_tensor_shape. rewrite Hperm. cbn [bind].
  split; [exact Hshape|].
  apply mapM_OK in Hshape. split.
  - rewrite <- (Forall2_length Hshape), (Permutation_length HP).
    apply zrange_length.
  - intros i v Hi.
    destruct (Forall2_nth_error_left _ _ _ _ _ Hshape Hi) as (j & Hj & Hget).
    pose proof (Hrange j (nth_error_In _ _ Hj)) as Hr.
    destruct (getitem_in_range (flatten dims) j Hr) as (a & Ha & Hnth).
    exists j. repeat split; try lia; [exact Hj|]. congruence.
Qed.

Lemma dims_to_tensor_shape_spec_witness :
  dims_to_tensor_perm dims_super_23 = OK [2; 3; 0; 1; 6; 7; 4; 5] /\
  exists shape,
    dims_to_tensor_shape dims_super_23 = OK shape /\
    length shape = length (flatten dims_super_23) /\
    forall i v, nth_error shape i = Some v ->
      exists j, nth_error [2; 3; 0; 1; 6; 7; 4; 5] i = Some j /\
                0 <= j < Z.of_nat (length (flatten dims_super_23)) /\
                nth_error (flatten dims_super_23) (Z.to_nat j) = Some v.
Proof.
  split; [reflexivity|].
  apply (dims_to_tensor_shape_spec dims_super_23 [2; 3; 0; 1; 6; 7; 4; 5]).
  reflexivity.
Defined.

(** C5 as stated fails in its example: the shape of [[[2,3],[2,3]]] has
    four entries, not two. *)
Lemma dims_to_tensor_shape_not_pair :
  dims_to_tensor_perm dims_oper_23 = OK [0; 1; 2; 3] /\
  flatten dims_oper_23 = [2; 3; 2; 3] /\
  dims_to_tensor_shape dims_oper_23 <> OK [2; 3].
Proof. repeat split. discriminate. Qed.

(** ** The classifier and the unsupported kind *)

(** Only the permutation builder raises [NotImplementedError]. *)
Lemma bind_not_unsupported {A B} (m : result A) (f : A -> result B) :
  m <> Err NotImplementedError ->
  (forall a, f a <> Err NotImplementedError) ->
  bind m f <> Err NotImplementedError.
Proof.
  destruct m as [a|e]; cbn; intros Hm Hf; [apply Hf|].
  intros [= ->]. now apply Hm.
Qed.

Lemma and_then_not_unsupported (a b : result bool) :
  a <> Err NotImplementedError -> b <> Err NotImplementedError ->
  a &&& b <> Err NotImplementedError.
Proof. destruct a as [[|]|]; cbn; auto; discriminate. Qed.

Lemma or_else_not_unsupported (a b : result bool) :
  a <> Err NotImplementedError -> b <> Err NotImplementedError ->
  a ||| b <> Err NotImplementedError.
Proof. destruct a as [[|]|]; cbn; auto; discriminate. Qed.

Lemma ite_not_unsupported {A} (c : result bool) (x y : result A) :
  c <> Err NotImplementedError ->
  x <> Err NotImplementedError -> y <> Err NotImplementedError ->
  ite c x y <> Err NotImplementedError.
Proof.
  destruct c as [[|]|e]; cbn; auto.
  intros Hc _ _ [= ->]. now apply Hc.
Qed.

Lemma item_not_unsupported t i : item t i <> Err NotImplementedError.
Proof. unfold item. destruct t; [|destruct (nth_error l i)]; discriminate. Qed.

Lemma np_prod_not_unsupported t : np_prod t <> Err NotImplementedError.
Proof. unfold np_prod. destruct (np_shape t); discriminate. Qed.

Lemma reversed_not_unsupported t : reversed t <> Err NotImplementedError.
Proof. destruct t; discriminate. Qed.

Lemma setitem_not_unsupported t i v : setitem t i v <> Err NotImplementedError.
Proof.
  unfold setitem. destruct t; [|destruct (i <? length l)%nat]; discriminate.
Qed.

Ltac not_unsupported :=
  repeat match goal with
    | |- forall _, _ => intro
    | |- and_then _ _ <> _ => apply and_then_not_unsupported
    | |- or_else _ _ <> _ => apply or_else_not_unsupported
    | |- ite _ _ _ <> _ => apply ite_not_unsupported
    | |- bind _ _ <> _ => apply bind_not_unsupported
    | |- item _ _ <> _ => apply item_not_unsupported
    | |- np_prod _ <> _ => apply np_prod_not_unsupported
    | |- reversed _ <> _ => apply reversed_not_unsupported
    | |- setitem _ _ _ <> _ => apply setitem_not_unsupported
    | |- OK _ <> _ => discriminate
    end.

Lemma type_from_dims_not_unsupported dims es :
  type_from_dims dims es <> Err NotImplementedError.
Proof.
  unfold type_from_dims, bra_pattern, ket_pattern, operator_bra_pattern,
    operator_ket_pattern, oper_pattern, super_pattern, prod_is_1,
    side_is_list, first_is_int, first_is_list, sides_equal, firsts_equal.
  not_unsupported.
Qed.

Lemma vectorization_correction_not_unsupported k perm :
  vectorization_correction k perm <> Err NotImplementedError.
Proof.
  unfold vectorization_correction, reverse_branch.
  destruct (in_operator_ket_super k), (in_operator_bra_super k);
    not_unsupported.
Qed.

Lemma perm_of_kind_unsupported k dims :
  perm_of_kind k dims = Err NotImplementedError <-> k = other.
Proof.
  split; [|intros ->; reflexivity].
  unfold perm_of_kind.
  destruct k; cbn [in_oper_ket_bra]; try discriminate; try reflexivity;
    intros H; exfalso; revert H;
    apply bind_not_unsupported;
    [apply vectorization_correction_not_unsupported | discriminate
    |apply vectorization_correction_not_unsupported | discriminate
    |apply vectorization_correction_not_unsupported | discriminate].
Qed.

Lemma dims_to_tensor_perm_unsupported dims :
  dims_to_tensor_perm dims = Err NotImplementedError <->
  type_from_dims dims false = OK other.
Proof.
  unfold dims_to_tensor_perm.
  destruct (type_from_dims dims false) as [k|e] eqn:Hk; cbn [bind].
  - rewrite perm_of_kind_unsupported. split; congruence.
  - split; [|discriminate].
    intros [= ->]. now apply type_from_dims_not_unsupported in Hk.
Qed.

(** On two non-empty rectangular lists every test of the classifier
    evaluates without raising. *)
Lemma type_from_dims_returns x r y c es :
  rectangular (Node (x :: r)) = true ->
  rectangular (Node (y :: c)) = true ->
  exists k, type_from_dims (Node [Node (x :: r); Node (y :: c)]) es = OK k.
Proof.
  unfold rectangular. intros Hr Hc.
  unfold type_from_dims, bra_pattern, ket_pattern, operator_bra_pattern,
    operator_ket_pattern, oper_pattern, super_pattern, prod_is_1,
    side_is_list, first_is_int, first_is_list, sides_equal, firsts_equal,
    np_prod.
  cbn [item nth_error bind is_list].
  destruct (np_shape (Node (x :: r))); [|discriminate].
  destruct (np_shape (Node (y :: c))); [|discriminate].
  cbn [bind and_then].
  destruct (np_multiply_reduce (flatten (Node (x :: r))) =? 1),
    (np_multiply_reduce (flatten (Node (y :: c))) =? 1),
    (tree_eqb (Node (x :: r)) (Node (y :: c))), (tree_eqb x y),
    x, y, es; cbn; eauto.
Qed.

(** C1 (as amended): for a dims specification of the data model whose two
    sides are rectangular and that [type_from_dims] with
    [enforce_square=False] does not classify as ['other'],
    [dims_to_tensor_perm] returns a list in which each of [0 .. N-1] occurs
    exactly once, [N] being [len(flatten(dims))]. *)
Theorem dims_to_tensor_perm_bijection (dims : tree) :
  dims_spec dims = true ->
  rect_sides dims = true ->
  type_from_dims dims false <> OK other ->
  exists p,
    dims_to_tensor_perm dims = OK p /\
    Permutation p (map Z.of_nat (seq 0 (length (flatten dims)))) /\
    NoDup p /\
    length p = length (flatten dims).
Proof.
  intros Hspec Hrect Hother.
  apply dims_spec_sides in Hspec as (row & col & -> & Hrow & Hcol).
  apply is_side_list in Hrow as (x & r & ->).
  apply is_side_list in Hcol as (y & c & ->).
  cbn [rect_sides] in Hrect. apply andb_prop in Hrect as [Hr Hc].
  destruct (type_from_dims_returns x r y c false Hr Hc) as (k & Hk).
  assert (Hk' : k <> other) by (intros ->; contradiction).
  destruct (perm_of_kind_returns k (x :: r) (y :: c) Hk') as (p & Hp).
  assert (Hdp : dims_to_tensor_perm (Node [Node (x :: r); Node (y :: c)]) = OK p)
    by (unfold dims_to_tensor_perm; now rewrite Hk).
  pose proof (dims_to_tensor_perm_permutation _ _ Hdp) as Hperm.
  exists p. split; [exact Hdp|]. split; [|split].
  - now rewrite <- labels_of_seq.
  - apply Permutation_NoDup
      with (l := labels_of (Node [Node (x :: r); Node (y :: c)])).
    + now symmetry.
    + apply zrange_NoDup.
  - rewrite (Permutation_length Hperm). apply zrange_length.
Qed.

Lemma dims_to_tensor_perm_bijection_witness :
  exists p,
    dims_to_tensor_perm dims_super_23 = OK p /\
    Permutation p (map Z.of_nat (seq 0 (length (flatten dims_super_23)))) /\
    NoDup p /\
    length p = length (flatten dims_super_23).
Proof.
  apply (dims_to_tensor_perm_bijection dims_super_23);
    [reflexivity | reflexivity | discriminate].
Defined.

(** C1 as stated fails: [[[[2,3],[4]],[1]]] is a dims specification of the
    data model that [type_from_dims] does not classify as ['other'], since
    [np.prod] raises on its ragged row side, and [dims_to_tensor_perm] raises
    with it instead of returning a permutation. *)
Lemma builder_raises_on_ragged_side :
  dims_spec dims_ragged = true /\
  type_from_dims dims_ragged false <> OK other /\
  dims_to_tensor_perm dims_ragged = Err ValueError /\
  ~ (forall dims,
       dims_spec dims = true ->
       type_from_dims dims false <> OK other ->
       exists p,
         dims_to_tensor_perm dims = OK p /\
         Permutation p (map Z.of_nat (seq 0 (length (flatten dims))))).
Proof.
  split; [reflexivity|]. split; [discriminate|]. split; [reflexivity|].
  intros H.
  destruct (H dims_ragged eq_refl ltac:(discriminate)) as (p & Hp & _).
  discriminate.
Qed.

(** C6 (as amended): on a dims specification whose two sides are
    rectangular, [type_from_dims] returns a kind without raising, for either
    value of [enforce_square]; [dims_to_tensor_perm] raises
    [NotImplementedError] exactly when [type_from_dims(dims, False)] returns
    ['other'] (on any value), and returns a complete list for every other
    kind. *)
Theorem classifier_total_builder_unsupported (dims : tree) (es : bool) :
  dims_spec dims = true ->
  rect_sides dims = true ->
  (exists k, type_from_dims dims es = OK k) /\
  (forall d, dims_to_tensor_perm d = Err NotImplementedError <->
             type_from_dims d false = OK other) /\
  (forall k, type_from_dims dims false = OK k -> k <> other ->
     exists p, dims_to_tensor_perm dims = OK p).
Proof.
  intros Hspec Hrect.
  apply dims_spec_sides in Hspec as (row & col & -> & Hrow & Hcol).
  apply is_side_list in Hrow as (x & r & ->).
  apply is_side_list in Hcol as (y & c & ->).
  cbn [rect_sides] in Hrect. apply andb_prop in Hrect as [Hr Hc].
  split; [now apply type_from_dims_returns|].
  split; [exact dims_to_tensor_perm_unsupported|].
  intros k Hk Hother. unfold dims_to_tensor_perm. rewrite Hk. cbn [bind].
  now apply perm_of_kind_returns.
Qed.

Lemma classifier_total_builder_unsupported_witness :
  (exists k, type_from_dims dims_super_23 true = OK k) /\
  (forall d, dims_to_tensor_perm d = Err NotImplementedError <->
             type_from_dims d false = OK other) /\
  (forall k, type_from_dims dims_super_23 false = OK k -> k <> other ->
     exists p, dims_to_tensor_perm dims_super_23 = OK p).
Proof.
  apply (classifier_total_builder_unsupported dims_super_23 true);
    reflexivity.
Defined.

(** C6 as stated fails: [[[[2,3],[4]],[1]]] is a dims specification of the
    data model, and [np.prod] raises on its ragged row side, so
    [type_from_dims] raises instead of returning a kind. *)
Lemma classifier_raises_on_ragged_side :
  dims_spec dims_ragged = true /\
  type_from_dims dims_ragged true = Err ValueError /\
  type_from_dims dims_ragged false = Err ValueError /\
  ~ (forall dims es, dims_spec dims = true ->
       exists k, type_from_dims dims es = OK k).
Proof.
  repeat split.
  intros H. destruct (H dims_ragged true eq_refl) as [k Hk]. discriminate.
Qed.

(** The kind ['other'] is reached: with square enforcement on a non-square
    operator, and without it on sides that are not lists, where the builder
    then raises. *)
Example other_is_reached :
  type_from_dims (Node [ints [2]; ints [3]]) true = OK other /\
  type_from_dims (Node [Leaf 2; Leaf 2]) false = OK other /\
  dims_to_tensor_perm (Node [Leaf 2; Leaf 2]) = Err NotImplementedError.
Proof. repeat split. Qed.

(** C8: the ['bra'] test comes first: when the row side has product 1 and
    the column side is a list starting with an int, the kind is ['bra']
    whatever the later tests say; [[[1], [1]]] also passes the ['oper'] test
    and is classified ['bra']. A value classified ['oper'] or ['super'] has
    failed the four vector tests. *)
Theorem bra_before_oper (row : tree) (c : Z) (cs : list tree) (es : bool) :
  np_prod row = OK 1 ->
  type_from_dims (Node [row; Node (Leaf c :: cs)]) es = OK bra /\
  (oper_pattern dims_unit true = OK true /\
   type_from_dims dims_unit true = OK bra /\
   type_from_dims dims_unit false = OK bra) /\
  (forall d e, type_from_dims d e = OK oper \/ type_from_dims d e = OK super ->
     bra_pattern d = OK false /\ ket_pattern d = OK false /\
     operator_bra_pattern d = OK false /\ operator_ket_pattern d = OK false).
Proof.
  intros Hrow. split; [|split; [repeat split|]].
  - unfold type_from_dims, bra_pattern, prod_is_1, side_is_list, first_is_int.
    cbn [item nth_error bind]. rewrite Hrow. reflexivity.
  - intros d e. unfold type_from_dims.
    destruct (bra_pattern d) as [[|]|]; cbn [ite];
      [intros [H|H]; discriminate| |intros [H|H]; discriminate].
    destruct (ket_pattern d) as [[|]|]; cbn [ite];
      [intros [H|H]; discriminate| |intros [H|H]; discriminate].
    destruct (operator_bra_pattern d) as [[|]|]; cbn [ite];
      [intros [H|H]; discriminate| |intros [H|H]; discriminate].
    destruct (operator_ket_pattern d) as [[|]|]; cbn [ite];
      [intros [H|H]; discriminate| |intros [H|H]; discriminate].
    auto.
Qed.

Lemma bra_before_oper_witness :
  type_from_dims (Node [ints [1; 1]; Node [Leaf 5; Leaf 7]]) true = OK bra /\
  (oper_pattern dims_unit true = OK true /\
   type_from_dims dims_unit true = OK bra /\
   type_from_dims dims_unit false = OK bra) /\
  (forall d e, type_from_dims d e = OK oper \/ type_from_dims d e = OK super ->
     bra_pattern d = OK false /\ ket_pattern d = OK false /\
     operator_bra_pattern d = OK false /\ operator_ket_pattern d = OK false).
Proof.
  apply (bra_before_oper (ints [1; 1]) 5 [Leaf 7] true). reflexivity.
Defined.

(** ** Index projection *)

Lemma getitem_spec (perm : list Z) (i : Z) :
  getitem perm i =
  if index_ok (Z.of_nat (length perm)) i then OK (perm_at perm i)
  else Err IndexError.
Proof.
  unfold getitem, index_ok, perm_at, index_pos.
  set (n := Z.of_nat (length perm)).
  destruct (Z.ltb_spec i 0) as [Hneg|Hpos].
  - destruct (Z.ltb_spec (i + n) 0) as [H1|H1];
      destruct (Z.leb_spec n (i + n)) as [H2|H2];
      destruct (Z.leb_spec (- n) i) as [H3|H3];
      destruct (Z.ltb_spec i n) as [H4|H4]; cbn [orb andb];
      try reflexivity; try lia.
    destruct (nth_error perm (Z.to_nat (i + n))) as [a|] eqn:E.
    + now rewrite (nth_error_nth _ _ 0 E).
    + apply nth_error_None in E. lia.
  - destruct (Z.ltb_spec i 0) as [H1|H1];
      destruct (Z.leb_spec n i) as [H2|H2];
      destruct (Z.leb_spec (- n) i) as [H3|H3];
      destruct (Z.ltb_spec i n) as [H4|H4]; cbn [orb andb];
      try reflexivity; try lia.
    destruct (nth_error perm (Z.to_nat i)) as [a|] eqn:E.
    + now rewrite (nth_error_nth _ _ 0 E).
    + apply nth_error_None in E. lia.
Qed.

Lemma deep_map_Coll fn over k els :
  deep_map fn over (Coll k els) =
  if over k then r <- mapM (deep_map fn over) els ;; OK (Coll k r)
  else fn (Coll k els).
Proof.
  cbn [deep_map]. destruct (over k); [|reflexivity]. f_equal.
  induction els as [|el rest IH]; [reflexivity|].
  cbn [mapM]. now rewrite <- IH.
Qed.

(** [deep_map] with [perm[i]] on a nested index structure: every leaf is
    looked up, and the first index the list rejects raises. *)
Lemma deep_map_getitem perm c :
  deep_map (getitem_coll perm) over_default c =
  if forallb (index_ok (Z.of_nat (length perm))) (leaves c)
  then OK (coll_map (perm_at perm) c)
  else Err IndexError.
Proof.
  induction c as [i|k els IH] using coll_nested_ind.
  - cbn [deep_map getitem_coll leaves forallb coll_map].
    rewrite getitem_spec, andb_true_r.
    now destruct (index_ok (Z.of_nat (length perm)) i).
  - rewrite deep_map_Coll. cbn [over_default leaves coll_map].
    assert (H : mapM (deep_map (getitem_coll perm) over_default) els =
                if forallb (index_ok (Z.of_nat (length perm)))
                     (concat (map leaves els))
                then OK (map (coll_map (perm_at perm)) els)
                else Err IndexError).
    { induction IH as [|el rest Hel _ IHrest]; [reflexivity|].
      cbn [mapM map concat]. rewrite forallb_app, Hel, IHrest.
      destruct (forallb _ (leaves el)); [|reflexivity].
      now destruct (forallb _ (concat (map leaves rest))). }
    rewrite H. now destruct (forallb _ (concat (map leaves els))).
Qed.

(** C7 (as amended): when [dims_to_tensor_perm(dims)] returns [perm], a
    single int index yields a single int, and a nested structure of ints
    yields the same structure with each leaf [i] replaced by [perm[i]],
    where a negative [i] counts from the end as in any list subscript; the
    call raises [IndexError] whenever some leaf is outside
    [-len(perm) .. len(perm)-1]. *)
Theorem dims_idxs_to_tensor_idxs_spec (dims : tree) (perm : list Z)
    (indices : coll) :
  dims_to_tensor_perm dims = OK perm ->
  length perm = length (flatten dims) /\
  (forall i,
     dims_idxs_to_tensor_idxs dims (Scalar i) =
     if (0 <=? i) && (i <? Z.of_nat (length perm))
     then OK (Scalar (nth (Z.to_nat i) perm 0))
     else if (- Z.of_nat (length perm) <=? i) && (i <? 0)
     then OK (Scalar (nth (Z.to_nat (i + Z.of_nat (length perm))) perm 0))
     else Err IndexError) /\
  dims_idxs_to_tensor_idxs dims indices =
    (if forallb (index_ok (Z.of_nat (length perm))) (leaves indices)
     then OK (coll_map (perm_at perm) indices)
     else Err IndexError).
Proof.
  intros Hperm. unfold dims_idxs_to_tensor_idxs. rewrite Hperm. cbn [bind].
  split; [|split].
  - rewrite (Permutation_length (dims_to_tensor_perm_permutation _ _ Hperm)).
    apply zrange_length.
  - intros i. rewrite deep_map_getitem. cbn [leaves forallb coll_map].
    unfold index_ok, perm_at, index_pos.
    destruct (Z.leb_spec (- Z.of_nat (length perm)) i);
      destruct (Z.ltb_spec i (Z.of_nat (length perm)));
      destruct (Z.ltb_spec i 0);
      destruct (Z.leb_spec 0 i); cbn [andb]; try reflexivity; lia.
  - apply deep_map_getitem.
Qed.

Lemma dims_idxs_to_tensor_idxs_spec_witness :
  dims_to_tensor_perm dims_super_23 = OK [2; 3; 0; 1; 6; 7; 4; 5] /\
  dims_idxs_to_tensor_idxs dims_super_23
    (Coll KList [Scalar 0; Coll KTuple [Scalar 2; Scalar (-1)]])
  = OK (Coll KList [Scalar 2; Coll KTuple [Scalar 0; Scalar 5]]).
Proof.
  split; [reflexivity|].
  apply (dims_idxs_to_tensor_idxs_spec dims_super_23
           [2; 3; 0; 1; 6; 7; 4; 5]
           (Coll KList [Scalar 0; Coll KTuple [Scalar 2; Scalar (-1)]])).
  reflexivity.
Defined.

(** C7 as stated fails: [-1] is outside [0 .. len(perm)-1], and the lookup
    [perm[-1]] returns the last entry instead of raising. *)
Lemma negative_index_is_accepted :
  dims_to_tensor_perm dims_oper_23 = OK [0; 1; 2; 3] /\
  ~ (0 <= -1 < 4) /\
  dims_idxs_to_tensor_idxs dims_oper_23 (Scalar (-1)) = OK (Scalar 3) /\
  dims_idxs_to_tensor_idxs dims_oper_23 (Scalar (-1)) <> Err IndexError.
Proof. repeat split; [lia | discriminate]. Qed.

(** ** [deep_remove] *)

Lemma tree_eqb_Leaf elem z : tree_eqb elem (Leaf z) = true <-> elem = Leaf z.
Proof.
  destruct elem as [x|l]; cbn; [|split; discriminate].
  rewrite Z.eqb_eq. split; congruence.
Qed.

Lemma tree_eqb_Node_Leaf l z : tree_eqb (Node l) (Leaf z) = false.
Proof. reflexivity. Qed.

(** With one target, [deep_remove] is the call it makes on its elements. *)
Lemma deep_remove_single l to_remove :
  deep_remove l [to_remove] = deep_remove_one to_remove l.
Proof.
  destruct l as [z|els]; [reflexivity|].
  cbn [deep_remove fold_left deep_remove_one]. unfold deep_remove_step.
  now destruct (contains to_remove els).
Qed.

(** [l.remove(x)] on a list that contains [x]: the first occurrence goes,
    the other elements stay as they are. *)
Lemma list_remove_first to_remove l :
  contains to_remove l = true ->
  exists pre post,
    l = pre ++ Leaf to_remove :: post /\
    contains to_remove pre = false /\
    list_remove to_remove l = pre ++ post.
Proof.
  induction l as [|elem rest IH]; cbn [contains existsb list_remove];
    [discriminate|].
  destruct (tree_eqb elem (Leaf to_remove)) eqn:E.
  - intros _. apply tree_eqb_Leaf in E as ->. exists [], rest. auto.
  - cbn [orb]. intros H. destruct (IH H) as (pre & post & -> & Hpre & ->).
    exists (elem :: pre), post. cbn [contains existsb app].
    rewrite E. auto.
Qed.

Lemma count_direct_app w l1 l2 :
  count_direct w (l1 ++ l2) = (count_direct w l1 + count_direct w l2)%nat.
Proof. unfold count_direct. now rewrite filter_app, length_app. Qed.

Lemma count_direct_absent w l : contains w l = false -> count_direct w l = 0%nat.
Proof.
  unfold count_direct. induction l as [|elem rest IH];
    cbn [contains existsb filter]; [reflexivity|].
  destruct (tree_eqb elem (Leaf w)); cbn [orb]; [discriminate|exact IH].
Qed.

Lemma deep_remove_one_not_target w elem :
  tree_eqb elem (Leaf w) = false ->
  tree_eqb (deep_remove_one w elem) (Leaf w) = false.
Proof.
  destruct elem as [z|els]; [trivial|]. intros _.
  cbn [deep_remove_one]. now destruct (contains w els).
Qed.

Lemma contains_map_deep_remove_one w l :
  contains w l = false -> contains w (map (deep_remove_one w) l) = false.
Proof.
  induction l as [|elem rest IH]; cbn [contains existsb map]; [reflexivity|].
  destruct (tree_eqb elem (Leaf w)) eqn:E; cbn [orb]; [discriminate|].
  intros H. rewrite (deep_remove_one_not_target _ _ E). exact (IH H).
Qed.

(** Each target of the loop shortens the list by at most one element. *)
Lemma deep_remove_step_length l w :
  (length l <= length (deep_remove_step l w) + 1)%nat.
Proof.
  unfold deep_remove_step. destruct (contains w l) eqn:E.
  - destruct (list_remove_first _ _ E) as (pre & post & -> & _ & ->).
    rewrite !length_app. cbn [length]. lia.
  - rewrite length_map. lia.
Qed.

Lemma deep_remove_loop_length what l :
  (length l <= length (fold_left deep_remove_step what l) + length what)%nat.
Proof.
  revert l. induction what as [|w what IH]; intros l; cbn [fold_left length];
    [lia|].
  pose proof (deep_remove_step_length l w).
  pose proof (IH (deep_remove_step l w)). lia.
Qed.

(** C9: the docstring example holds, and at a list level one target removes
    at most one direct element, the first that equals it: the level loses
    one element when the target is a direct element and none otherwise, and
    with several targets at most one element per target. *)
Theorem deep_remove_first_match_per_level (els : list tree) (to_remove : Z)
    (what : list Z) :
  deep_remove deep_remove_input [0; 5] = deep_remove_output /\
  (exists kept,
     deep_remove (Node els) [to_remove] = Node kept /\
     length kept
       = (length els - (if contains to_remove els then 1 else 0))%nat /\
     count_direct to_remove kept = pred (count_direct to_remove els)) /\
  (contains to_remove els = true ->
     exists pre post,
       els = pre ++ Leaf to_remove :: post /\
       contains to_remove pre = false /\
       deep_remove (Node els) [to_remove] = Node (pre ++ post)) /\
  (exists kept,
     deep_remove (Node els) what = Node kept /\
     (length els <= length kept + length what)%nat).
Proof.
  split; [reflexivity|]. split; [|split].
  - rewrite deep_remove_single. cbn [deep_remove_one].
    destruct (contains to_remove els) eqn:E.
    + destruct (list_remove_first _ _ E) as (pre & post & -> & Hpre & ->).
      exists (pre ++ post). split; [reflexivity|].
      rewrite !count_direct_app, (count_direct_absent _ _ Hpre), !length_app.
      unfold count_direct at 2. cbn [filter length tree_eqb].
      rewrite Z.eqb_refl. cbn [length]. split; [lia|].
      fold (count_direct to_remove post). lia.
    + exists (map (deep_remove_one to_remove) els). split; [reflexivity|].
      rewrite length_map, (count_direct_absent _ _ E).
      rewrite (count_direct_absent _ _ (contains_map_deep_remove_one _ _ E)).
      split; [lia|reflexivity].
  - intros E. rewrite deep_remove_single. cbn [deep_remove_one]. rewrite E.
    destruct (list_remove_first _ _ E) as (pre & post & -> & Hpre & ->).
    eauto.
  - eexists. split; [reflexivity|]. apply deep_remove_loop_length.
Qed.

(** An element other than the target keeps a place in the list after
    [l.remove(to_remove)]. *)
Lemma list_remove_keeps to_remove l i x :
  nth_error l i = Some x ->
  tree_eqb x (Leaf to_remove) = false ->
  exists i', nth_error (list_remove to_remove l) i' = Some x.
Proof.
  revert i. induction l as [|elem rest IH]; intros i Hi Hx.
  - destruct i; discriminate.
  - cbn [list_remove]. destruct (tree_eqb elem (Leaf to_remove)) eqn:E.
    + destruct i as [|i]; cbn in Hi.
      * injection Hi as ->. congruence.
      * eauto.
    + destruct i as [|i]; cbn in Hi.
      * exists 0%nat. exact Hi.
      * destruct (IH i Hi Hx) as (i' & Hi'). exists (S i'). exact Hi'.
Qed.

Lemma sub_at_list_is_list path x ys :
  sub_at path x = Some (Node ys) -> exists l, x = Node l.
Proof.
  destruct x as [z|l]; [|eauto].
  destruct path; cbn; discriminate.
Qed.

(** Below a level that holds the target as a direct element, every list is
    left as it is. *)
Lemma deep_remove_one_blocked to_remove els i path ys :
  contains to_remove els = true ->
  sub_at (i :: path) (Node els) = Some (Node ys) ->
  exists i',
    sub_at (i' :: path) (deep_remove_one to_remove (Node els))
      = Some (Node ys).
Proof.
  intros E H. cbn [deep_remove_one]. rewrite E.
  cbn [sub_at] in *.
  destruct (nth_error els i) as [x|] eqn:Hx; [|discriminate].
  destruct (sub_at_list_is_list _ _ _ H) as (l & ->).
  destruct (list_remove_keeps to_remove els i (Node l) Hx eq_refl)
    as (i' & Hi').
  exists i'. now rewrite Hi'.
Qed.

Lemma deep_remove_one_below to_remove outer :
  forall t zs inner i ys,
    sub_at outer t = Some (Node zs) ->
    contains to_remove zs = true ->
    sub_at (outer ++ i :: inner) t = Some (Node ys) ->
    exists path,
      length path = length (outer ++ i :: inner) /\
      sub_at path (deep_remove_one to_remove t) = Some (Node ys).
Proof.
  induction outer as [|j outer IH]; intros t zs inner i ys Hzs E Hys.
  - cbn [sub_at] in Hzs. injection Hzs as ->. cbn [app] in *.
    destruct (deep_remove_one_blocked _ _ _ _ _ E Hys) as (i' & Hi').
    exists (i' :: inner). auto.
  - destruct t as [z|els]; [discriminate|].
    destruct (contains to_remove els) eqn:Eels.
    + cbn [app] in *.
      destruct (deep_remove_one_blocked _ _ _ _ _ Eels Hys) as (i' & Hi').
      exists (i' :: outer ++ i :: inner). auto.
    + cbn [app sub_at] in *.
      destruct (nth_error els j) as [x|] eqn:Hx; [|discriminate].
      destruct (IH x zs inner i ys Hzs E Hys) as (path & Hlen & Hpath).
      exists (j :: path). cbn [length]. split; [now rewrite Hlen|].
      cbn [deep_remove_one sub_at]. rewrite Eels. cbn [sub_at].
      now rewrite nth_error_map, Hx.
Qed.

(** C10: when the target is a direct element of a list, [deep_remove]
    removes its first occurrence there and leaves the other elements, with
    all they contain, untouched: [deep_remove([0, [0]], 0)] is [[[0]]]; and
    every list that lies below a level holding the target as a direct
    element is found unchanged, at the same depth, in the result. *)
Theorem deep_remove_stops_below_match (els : list tree) (to_remove : Z) :
  contains to_remove els = true ->
  (exists pre post,
     els = pre ++ Leaf to_remove :: post /\
     contains to_remove pre = false /\
     deep_remove (Node els) [to_remove] = Node (pre ++ post)) /\
  deep_remove (Node [Leaf 0; Node [Leaf 0]]) [0] = Node [Node [Leaf 0]] /\
  (forall t outer zs i inner ys,
     sub_at outer t = Some (Node zs) ->
     contains to_remove zs = true ->
     sub_at (outer ++ i :: inner) t = Some (Node ys) ->
     exists path,
       length path = length (outer ++ i :: inner) /\
       sub_at path (deep_remove t [to_remove]) = Some (Node ys)).
Proof.
  intros E. split; [|split; [reflexivity|]].
  - rewrite deep_remove_single. cbn [deep_remove_one]. rewrite E.
    destruct (list_remove_first _ _ E) as (pre & post & -> & Hpre & ->).
    eauto.
  - intros t outer zs i inner ys Hzs Ezs Hys. rewrite deep_remove_single.
    eapply deep_remove_one_below; eassumption.
Qed.

Lemma deep_remove_stops_below_match_witness :
  contains 0 [Leaf 0; Node [Leaf 0]] = true /\
  exists pre post,
    [Leaf 0; Node [Leaf 0]] = pre ++ Leaf 0 :: post /\
    contains 0 pre = false /\
    deep_remove (Node [Leaf 0; Node [Leaf 0]]) [0] = Node (pre ++ post).
Proof.
  split; [reflexivity|].
  apply (deep_remove_stops_below_match [Leaf 0; Node [Leaf 0]] 0).
  reflexivity.
Defined.

(** * Further properties of the tree utilities *)

(** ** Shapes and labels *)

Lemma shape_of_Node l : shape_of (Node l) = Node (map shape_of l).
Proof. reflexivity. Qed.

Lemma flatten_tree_map f t : flatten (tree_map f t) = map f (flatten t).
Proof.
  induction t as [z|els IH] using tree_nested_ind; [reflexivity|].
  cbn [tree_map flatten]. rewrite concat_map, !map_map. f_equal.
  induction IH as [|elem rest Helem _ IHrest]; [reflexivity|].
  cbn [map]. now rewrite Helem, IHrest.
Qed.

Lemma shape_of_tree_map f t : shape_of (tree_map f t) = shape_of t.
Proof.
  unfold shape_of.
  induction t as [z|els IH] using tree_nested_ind; [reflexivity|].
  cbn [tree_map]. rewrite map_map. f_equal.
  induction IH as [|elem rest Helem _ IHrest]; [reflexivity|].
  cbn [map]. now rewrite Helem, IHrest.
Qed.

Lemma shape_of_enumerate t idx :
  shape_of (fst (_enumerate_flat t idx)) = shape_of t.
Proof.
  revert idx. induction t as [z|els IH] using tree_nested_ind; intros idx;
    [reflexivity|].
  rewrite _enumerate_flat_Node. cbn [fst]. rewrite !shape_of_Node. f_equal.
  revert idx. induction IH as [|elem rest Helem _ IHrest]; intros idx;
    [reflexivity|].
  rewrite enumerate_loop_cons. cbn [fst map]. now rewrite Helem, IHrest.
Qed.

(** X1: [enumerate_flat] returns a value of the same shape as its argument,
    bare scalars included, whose leaves read in flattening order are
    [0, 1, ..., N-1]. *)
Theorem enumerate_flat_labels (t : tree) :
  shape_of (enumerate_flat t) = shape_of t /\
  flatten (enumerate_flat t) = map Z.of_nat (seq 0 (length (flatten t))) /\
  length (flatten (enumerate_flat t)) = length (flatten t).
Proof.
  split; [apply shape_of_enumerate|].
  rewrite flatten_enumerate_flat, labels_of_seq. split; [reflexivity|].
  now rewrite length_map, length_seq.
Qed.

Lemma enumerate_by_shape a :
  forall b idx, shape_of a = shape_of b ->
                _enumerate_flat a idx = _enumerate_flat b idx.
Proof.
  induction a as [z|els IH] using tree_nested_ind; intros b idx Hshape.
  - destruct b as [z'|l]; [reflexivity|discriminate].
  - destruct b as [z'|l]; [discriminate|].
    rewrite !shape_of_Node in Hshape. injection Hshape as Hshape.
    rewrite !_enumerate_flat_Node.
    enough (H : enumerate_loop els idx = enumerate_loop l idx) by now rewrite H.
    revert l idx Hshape.
    induction IH as [|elem rest Helem _ IHrest]; intros l idx Hshape.
    + destruct l; [reflexivity|discriminate].
    + destruct l as [|y l]; [discriminate|].
      injection Hshape as Hy Hl.
      rewrite !enumerate_loop_cons, (Helem y idx Hy), (IHrest l _ Hl).
      reflexivity.
Qed.

(** X2: the labels depend on the shape alone: values of the same shape get
    the same labels, and labelling the labels changes nothing. *)
Theorem enumerate_flat_shape_only (a b : tree) :
  shape_of a = shape_of b ->
  enumerate_flat a = enumerate_flat b /\
  enumerate_flat (enumerate_flat a) = enumerate_flat a.
Proof.
  intros Hshape. unfold enumerate_flat. split.
  - now rewrite (enumerate_by_shape a b 0 Hshape).
  - now rewrite (enumerate_by_shape _ a 0 (shape_of_enumerate a 0)).
Qed.

Lemma enumerate_flat_shape_only_witness :
  shape_of dims_super_23 = shape_of dims_super_mixed /\
  enumerate_flat dims_super_23 = enumerate_flat dims_super_mixed /\
  enumerate_flat (enumerate_flat dims_super_23) = enumerate_flat dims_super_23.
Proof.
  split; [reflexivity|].
  apply (enumerate_flat_shape_only dims_super_23 dims_super_mixed).
  reflexivity.
Defined.

Lemma flatten_ints l : flatten (ints l) = l.
Proof.
  unfold ints. induction l as [|z l IH]; [reflexivity|].
  cbn [flatten] in IH. cbn [map flatten concat app]. now rewrite IH.
Qed.

(** X3: [flatten] only sees the leaves and their order: a flat list is
    returned as it is (so flattening twice is flattening once), wrapping a
    value in one more list changes nothing, and the flattening of a
    concatenation is the concatenation of the flattenings. *)
Theorem flatten_ignores_grouping (t : tree) (l1 l2 : list tree) :
  flatten (ints (flatten t)) = flatten t /\
  flatten (Node [t]) = flatten t /\
  flatten (Node (l1 ++ l2)) = flatten (Node l1) ++ flatten (Node l2) /\
  flatten (Node [Node l1; Node l2]) = flatten (Node (l1 ++ l2)).
Proof.
  split; [apply flatten_ints|]. split; [cbn; apply app_nil_r|].
  split; [apply flatten_Node_app|].
  rewrite flatten_Node_app. cbn [flatten map concat]. now rewrite app_nil_r.
Qed.

(** ** [unflatten] on any list of indices *)

Lemma unflatten_elem_spec l idx :
  unflatten_elem l idx =
  if forallb (index_ok (Z.of_nat (length l))) (flatten idx)
  then OK (tree_map (perm_at l) idx)
  else Err IndexError.
Proof.
  induction idx as [i|ixs IH] using tree_nested_ind.
  - cbn [unflatten_elem flatten forallb tree_map].
    rewrite getitem_spec, andb_true_r.
    now destruct (index_ok (Z.of_nat (length l)) i).
  - cbn [unflatten_elem]. rewrite unflatten_Node. cbn [flatten tree_map].
    assert (H : mapM (unflatten_elem l) ixs =
                if forallb (index_ok (Z.of_nat (length l)))
                     (concat (map flatten ixs))
                then OK (map (tree_map (perm_at l)) ixs)
                else Err IndexError).
    { induction IH as [|idx rest Hidx _ IHrest]; [reflexivity|].
      cbn [mapM map concat]. rewrite forallb_app, Hidx, IHrest.
      destruct (forallb _ (flatten idx)); [|reflexivity].
      now destruct (forallb _ (concat (map flatten rest))). }
    rewrite H. now destruct (forallb _ (concat (map flatten ixs))).
Qed.

(** X4: [unflatten(l, idxs)] raises [TypeError] when [idxs] is an int; on a
    list of indices it returns the value of the same shape in which each
    index [i] is replaced by [l[i]] (a negative [i] counting from the end),
    and raises [IndexError] as soon as one index is outside
    [-len(l) .. len(l)-1]. *)
Theorem unflatten_spec (l : list Z) (ixs : list tree) (i : Z) :
  unflatten l (Leaf i) = Err TypeError /\
  unflatten l (Node ixs) =
    (if forallb (index_ok (Z.of_nat (length l))) (flatten (Node ixs))
     then OK (tree_map (perm_at l) (Node ixs))
     else Err IndexError) /\
  shape_of (tree_map (perm_at l) (Node ixs)) = shape_of (Node ixs) /\
  flatten (tree_map (perm_at l) (Node ixs))
    = map (perm_at l) (flatten (Node ixs)).
Proof.
  split; [reflexivity|]. split; [|split].
  - exact (unflatten_elem_spec l (Node ixs)).
  - apply shape_of_tree_map.
  - apply flatten_tree_map.
Qed.

Lemma perm_at_middle pre a post :
  perm_at (pre ++ a :: post) (Z.of_nat (length pre)) = a.
Proof.
  unfold perm_at, index_pos.
  destruct (Z.ltb_spec (Z.of_nat (length pre)) 0) as [Hneg|_]; [lia|].
  rewrite Nat2Z.id. apply nth_middle.
Qed.

Lemma map_perm_at_zrange k :
  forall pre l, (k <= length l)%nat ->
    map (perm_at (pre ++ l)) (zrange (Z.of_nat (length pre)) k) = firstn k l.
Proof.
  induction k as [|k IH]; intros pre l Hk; [reflexivity|].
  destruct l as [|a l]; [cbn in Hk; lia|].
  cbn [zrange map firstn]. rewrite perm_at_middle. f_equal.
  replace (Z.of_nat (length pre) + 1) with (Z.of_nat (length (pre ++ [a])))
    by (rewrite length_app; cbn [length]; lia).
  replace (pre ++ a :: l) with ((pre ++ [a]) ++ l)
    by now rewrite <- app_assoc.
  apply IH. cbn [length] in Hk. lia.
Qed.

Lemma forallb_index_ok_zrange n k :
  forall start, 0 <= start ->
    forallb (index_ok n) (zrange start k) = (start + Z.of_nat k <=? n) || (k =? 0)%nat.
Proof.
  unfold index_ok.
  induction k as [|k IH]; intros start Hstart.
  - cbn. now rewrite orb_true_r.
  - cbn [zrange forallb]. rewrite IH by lia. cbn [Nat.eqb]. rewrite orb_false_r.
    destruct (Z.leb_spec (- n) start), (Z.ltb_spec start n),
      (Z.leb_spec (start + 1 + Z.of_nat k) n),
      (Z.leb_spec (start + Z.of_nat (S k)) n), (Nat.eqb_spec k 0);
      cbn [andb orb]; try reflexivity; lia.
Qed.

(** X5: with the labels of a list [t] as indices, [unflatten(l, ...)]
    succeeds exactly when [l] has at least as many entries as [t] has leaves;
    the result has the shape of [t] and flattens to the first [N] entries of
    [l], so that [flatten] inverts [unflatten] when the lengths agree. A
    shorter [l] raises [IndexError]. *)
Theorem flatten_unflatten_round_trip (l : list Z) (els : list tree) :
  ((length (flatten (Node els)) <= length l)%nat ->
   exists r,
     unflatten l (enumerate_flat (Node els)) = OK r /\
     shape_of r = shape_of (Node els) /\
     flatten r = firstn (length (flatten (Node els))) l) /\
  ((length l < length (flatten (Node els)))%nat ->
   unflatten l (enumerate_flat (Node els)) = Err IndexError).
Proof.
  pose proof (unflatten_elem_spec l (enumerate_flat (Node els))) as H.
  assert (Hnode : exists ixs, enumerate_flat (Node els) = Node ixs)
    by (unfold enumerate_flat; rewrite _enumerate_flat_Node; cbn; eauto).
  destruct Hnode as (ixs & Hixs). rewrite Hixs in H. cbn [unflatten_elem] in H.
  rewrite <- Hixs in H. rewrite H. clear H.
  rewrite flatten_enumerate_flat. unfold labels_of.
  rewrite forallb_index_ok_zrange by lia.
  set (N := length (flatten (Node els))).
  split; intros HN.
  - destruct (Z.leb_spec (0 + Z.of_nat N) (Z.of_nat (length l))); [|lia].
    cbn [orb]. eexists. split; [reflexivity|]. split.
    + rewrite shape_of_tree_map. apply shape_of_enumerate.
    + rewrite flatten_tree_map, flatten_enumerate_flat. unfold labels_of.
      fold N. exact (map_perm_at_zrange N [] l HN).
  - destruct (Z.leb_spec (0 + Z.of_nat N) (Z.of_nat (length l))); [lia|].
    destruct (Nat.eqb_spec N 0); [lia|]. reflexivity.
Qed.

(** ** What [deep_remove] keeps *)

Lemma deep_remove_step_one els w :
  Node (deep_remove_step els w) = deep_remove_one w (Node els).
Proof.
  unfold deep_remove_step. cbn [deep_remove_one].
  now destruct (contains w els).
Qed.

Lemma deep_remove_one_Node w els :
  exists els', deep_remove_one w (Node els) = Node els'.
Proof. cbn [deep_remove_one]. destruct (contains w els); eauto. Qed.

Lemma skeleton_Node_cons elem rest :
  skeleton (Node (elem :: rest)) =
  match elem, skeleton (Node rest) with
  | Node _, Node sk => Node (skeleton elem :: sk)
  | _, sk => sk
  end.
Proof. destruct elem; reflexivity. Qed.

Lemma skeleton_list_remove w l :
  skeleton (Node (list_remove w l)) = skeleton (Node l).
Proof.
  induction l as [|elem rest IH]; [reflexivity|].
  cbn [list_remove]. destruct (tree_eqb elem (Leaf w)) eqn:E.
  - apply tree_eqb_Leaf in E as ->. reflexivity.
  - rewrite !skeleton_Node_cons, IH. reflexivity.
Qed.

Lemma skeleton_deep_remove_one w t :
  skeleton (deep_remove_one w t) = skeleton t.
Proof.
  induction t as [z|els IH] using tree_nested_ind; [reflexivity|].
  cbn [deep_remove_one]. destruct (contains w els);
    [apply skeleton_list_remove|].
  induction IH as [|elem rest Helem _ IHrest]; [reflexivity|].
  cbn [map]. rewrite !skeleton_Node_cons, IHrest, Helem.
  destruct elem as [z|l]; [reflexivity|].
  now destruct (deep_remove_one_Node w l) as (l' & ->).
Qed.

(** X6: [deep_remove] returns a list of the same structure: the lists of
    the argument, at every depth, are all still there and no list is added;
    only ints go. *)
Theorem deep_remove_keeps_lists (t : tree) (what : list Z) :
  skeleton (deep_remove t what) = skeleton t.
Proof.
  destruct t as [z|els]; [reflexivity|]. cbn [deep_remove].
  revert els. induction what as [|w what IH]; intros els; [reflexivity|].
  cbn [fold_left]. rewrite IH, deep_remove_step_one.
  apply skeleton_deep_remove_one.
Qed.

Lemma filter_list_remove w l :
  filter (fun z => negb (z =? w)) (flatten (Node (list_remove w l)))
  = filter (fun z => negb (z =? w)) (flatten (Node l)).
Proof.
  induction l as [|elem rest IH]; [reflexivity|].
  cbn [list_remove]. destruct (tree_eqb elem (Leaf w)) eqn:E.
  - apply tree_eqb_Leaf in E as ->.
    rewrite flatten_Node_cons, filter_app. cbn [flatten filter].
    now rewrite Z.eqb_refl.
  - now rewrite !flatten_Node_cons, !filter_app, IH.
Qed.

Lemma filter_deep_remove_one w t :
  filter (fun z => negb (z =? w)) (flatten (deep_remove_one w t))
  = filter (fun z => negb (z =? w)) (flatten t).
Proof.
  induction t as [z|els IH] using tree_nested_ind; [reflexivity|].
  cbn [deep_remove_one]. destruct (contains w els);
    [apply filter_list_remove|].
  induction IH as [|elem rest Helem _ IHrest]; [reflexivity|].
  cbn [map]. now rewrite !flatten_Node_cons, !filter_app, Helem, IHrest.
Qed.

Lemma filter_filter_implied {A} (P Q : A -> bool) l :
  (forall a, P a = true -> Q a = true) ->
  filter P (filter Q l) = filter P l.
Proof.
  intros HPQ. induction l as [|a l IH]; [reflexivity|].
  cbn [filter]. destruct (Q a) eqn:EQ; cbn [filter]; rewrite IH;
    [reflexivity|].
  destruct (P a) eqn:EP; [|reflexivity].
  rewrite (HPQ a EP) in EQ. discriminate.
Qed.

Lemma not_target_not_eq what w z :
  In w what -> negb (is_target what z) = true -> negb (z =? w) = true.
Proof.
  unfold is_target. intros Hin H.
  destruct (Z.eqb_spec z w) as [->|]; [|reflexivity].
  rewrite negb_true_iff in H.
  assert (Hex : existsb (Z.eqb w) what = true)
    by (apply existsb_exists; exists w; split; [assumption|apply Z.eqb_refl]).
  congruence.
Qed.

(** X7: [deep_remove] removes nothing but targets: the leaves that are not
    among [what] are all kept, in their order. *)
Theorem deep_remove_keeps_other_leaves (t : tree) (what : list Z) :
  filter (fun z => negb (is_target what z)) (flatten (deep_remove t what))
  = filter (fun z => negb (is_target what z)) (flatten t).
Proof.
  destruct t as [z|els]; [reflexivity|]. cbn [deep_remove].
  enough (H : forall ws, incl ws what -> forall els,
            filter (fun z => negb (is_target what z))
              (flatten (Node (fold_left deep_remove_step ws els)))
            = filter (fun z => negb (is_target what z)) (flatten (Node els)))
    by (apply H, incl_refl).
  induction ws as [|w ws IH]; intros Hincl l; [reflexivity|].
  cbn [fold_left]. rewrite IH by (intros x Hx; apply Hincl; now right).
  rewrite deep_remove_step_one.
  assert (Hw : In w what) by (apply Hincl; now left).
  rewrite <- (filter_filter_implied _ (fun z => negb (z =? w)))
    by (intros a; apply (not_target_not_eq what w a Hw)).
  rewrite filter_deep_remove_one.
  apply filter_filter_implied. intros a. apply (not_target_not_eq what w a Hw).
Qed.

Lemma contains_In w l : contains w l = true -> In w (flatten (Node l)).
Proof.
  intros H. destruct (list_remove_first _ _ H) as (pre & post & -> & _).
  rewrite flatten_Node_app, flatten_Node_cons. apply in_or_app. right. now left.
Qed.

Lemma deep_remove_one_absent w t :
  ~ In w (flatten t) -> deep_remove_one w t = t.
Proof.
  induction t as [z|els IH] using tree_nested_ind; intros Hw; [reflexivity|].
  cbn [deep_remove_one]. destruct (contains w els) eqn:E.
  - exfalso. now apply Hw, contains_In.
  - f_equal. clear E.
    induction IH as [|elem rest Helem _ IHrest]; [reflexivity|].
    rewrite flatten_Node_cons in Hw. cbn [map].
    rewrite Helem, IHrest; [reflexivity| |];
      intros Hin; apply Hw, in_or_app; auto.
Qed.

(** X8: targets that occur nowhere in the value change nothing:
    [deep_remove] then returns a value equal to its argument. *)
Theorem deep_remove_absent_targets (t : tree) (what : list Z) :
  Forall (fun w => ~ In w (flatten t)) what ->
  deep_remove t what = t.
Proof.
  destruct t as [z|els]; [reflexivity|]. cbn [deep_remove].
  induction 1 as [|w what Hw _ IH]; [reflexivity|].
  cbn [fold_left].
  assert (Hstep : deep_remove_step els w = els).
  { pose proof (deep_remove_step_one els w) as H.
    rewrite (deep_remove_one_absent w (Node els) Hw) in H. now injection H. }
  now rewrite Hstep.
Qed.

Lemma deep_remove_absent_targets_witness :
  deep_remove deep_remove_input [8; 9] = deep_remove_input.
Proof.
  apply (deep_remove_absent_targets deep_remove_input [8; 9]).
  repeat constructor; cbn; lia.
Defined.

(** * Further properties of the classifier *)

Lemma ite_OK {A} (c : result bool) (x y : result A) (v : A) :
  ite c x y = OK v ->
  (c = OK true /\ x = OK v) \/ (c = OK false /\ y = OK v).
Proof. destruct c as [[|]|]; cbn; auto; discriminate. Qed.

Lemma and_then_true (a b : result bool) :
  a &&& b = OK true -> a = OK true /\ b = OK true.
Proof. destruct a as [[|]|]; cbn; auto; discriminate. Qed.

Lemma or_else_false_true (a : result bool) :
  a ||| OK false = OK true -> a = OK true.
Proof. destruct a as [[|]|]; cbn; auto. Qed.

Lemma tree_eqb_eq a : forall b, tree_eqb a b = true -> a = b.
Proof.
  induction a as [x|l IH] using tree_nested_ind; intros b H.
  - destruct b as [y|m]; [|discriminate]. cbn in H.
    apply Z.eqb_eq in H. now subst.
  - destruct b as [y|m]; [discriminate|]. cbn [tree_eqb] in H. f_equal.
    revert m H. induction IH as [|x l Hx _ IHl]; intros m H.
    + destruct m; [reflexivity|discriminate].
    + destruct m as [|y m]; [discriminate|].
      apply andb_prop in H as [Hxy Hlm].
      now rewrite (Hx y Hxy), (IHl m Hlm).
Qed.

Lemma sides_equal_true dims :
  sides_equal dims = OK true ->
  exists side, item dims 0 = OK side /\ item dims 1 = OK side.
Proof.
  unfold sides_equal. intros H.
  apply bind_OK in H as (a & Ha & H). apply bind_OK in H as (b & Hb & H).
  injection H as H. apply tree_eqb_eq in H as ->. eauto.
Qed.

(** X9: with square enforcement the kinds ['oper'] and ['super'] are only
    returned for a dims whose two sides are equal. *)
Theorem square_kinds_have_equal_sides (dims : tree) (k : kind) :
  type_from_dims dims true = OK k ->
  k = oper \/ k = super ->
  exists side, item dims 0 = OK side /\ item dims 1 = OK side.
Proof.
  unfold type_from_dims. intros H Hk.
  apply ite_OK in H as [[_ [= <-]]|[_ H]]; [destruct Hk; discriminate|].
  apply ite_OK in H as [[_ [= <-]]|[_ H]]; [destruct Hk; discriminate|].
  apply ite_OK in H as [[_ [= <-]]|[_ H]]; [destruct Hk; discriminate|].
  apply ite_OK in H as [[_ [= <-]]|[_ H]]; [destruct Hk; discriminate|].
  apply ite_OK in H as [[Ho _]|[_ H]].
  - unfold oper_pattern in Ho. apply and_then_true in Ho as [_ Ho].
    now apply sides_equal_true, or_else_false_true.
  - apply ite_OK in H as [[Hs _]|[_ [= <-]]]; [|destruct Hk; discriminate].
    unfold super_pattern in Hs. apply and_then_true in Hs as [_ Hs].
    apply or_else_false_true, and_then_true in Hs as [Hs _].
    now apply sides_equal_true.
Qed.

Lemma square_kinds_have_equal_sides_witness :
  exists side, item dims_super_23 0 = OK side /\ item dims_super_23 1 = OK side.
Proof.
  apply (square_kinds_have_equal_sides dims_super_23 super);
    [reflexivity | now right].
Defined.

Lemma first_is_list_not_int dims i :
  first_is_list dims i = OK true -> first_is_int dims i = OK false.
Proof.
  unfold first_is_list, first_is_int.
  destruct (item dims i) as [d|]; cbn [bind]; [|discriminate].
  destruct (item d 0) as [[z|l]|]; cbn; congruence.
Qed.

Lemma oper_pattern_relaxed dims :
  oper_pattern dims true = OK true -> oper_pattern dims false = OK true.
Proof.
  unfold oper_pattern. intros H.
  apply and_then_true in H as [H1 H2]. rewrite H1.
  apply or_else_false_true in H2. now rewrite H2.
Qed.

Lemma super_pattern_relaxed dims :
  super_pattern dims true = OK true ->
  super_pattern dims false = OK true /\ oper_pattern dims false = OK false.
Proof.
  unfold super_pattern, oper_pattern. intros H.
  apply and_then_true in H as [H1 H2].
  apply or_else_false_true in H2.
  pose proof H1 as H1'. apply and_then_true in H1' as [Hl Hf].
  rewrite H1, H2, Hl, (first_is_list_not_int _ _ Hf). split; reflexivity.
Qed.

(** X10: dropping square enforcement never changes a classification: a
    kind other than ['other'] returned with [enforce_square=True] is
    returned with [enforce_square=False] too. *)
Theorem relaxing_square_keeps_kind (dims : tree) (k : kind) :
  type_from_dims dims true = OK k ->
  k <> other ->
  type_from_dims dims false = OK k.
Proof.
  unfold type_from_dims. intros H Hk.
  destruct (bra_pattern dims) as [[|]|]; cbn [ite] in *; [assumption| |assumption].
  destruct (ket_pattern dims) as [[|]|]; cbn [ite] in *; [assumption| |assumption].
  destruct (operator_bra_pattern dims) as [[|]|]; cbn [ite] in *;
    [assumption| |assumption].
  destruct (operator_ket_pattern dims) as [[|]|]; cbn [ite] in *;
    [assumption| |assumption].
  destruct (oper_pattern dims true) as [[|]|] eqn:Eo; cbn [ite] in H.
  - now rewrite (oper_pattern_relaxed _ Eo).
  - destruct (super_pattern dims true) as [[|]|] eqn:Es; cbn [ite] in H.
    + destruct (super_pattern_relaxed _ Es) as [-> ->]. exact H.
    + congruence.
    + discriminate.
  - discriminate.
Qed.

Lemma relaxing_square_keeps_kind_witness :
  type_from_dims dims_super_23 false = OK super.
Proof.
  apply (relaxing_square_keeps_kind dims_super_23 super);
    [reflexivity | discriminate].
Defined.

Lemma type_from_dims_relaxed_kind x r y c :
  rectangular (Node (x :: r)) = true ->
  rectangular (Node (y :: c)) = true ->
  exists k, type_from_dims (Node [Node (x :: r); Node (y :: c)]) false = OK k
            /\ k <> other.
Proof.
  unfold rectangular. intros Hr Hc.
  unfold type_from_dims, bra_pattern, ket_pattern, operator_bra_pattern,
    operator_ket_pattern, oper_pattern, super_pattern, prod_is_1,
    side_is_list, first_is_int, first_is_list, sides_equal, firsts_equal,
    np_prod.
  cbn [item nth_error bind is_list].
  destruct (np_shape (Node (x :: r))); [|discriminate].
  destruct (np_shape (Node (y :: c))); [|discriminate].
  cbn [bind and_then].
  destruct (np_multiply_reduce (flatten (Node (x :: r))) =? 1),
    (np_multiply_reduce (flatten (Node (y :: c))) =? 1),
    (tree_eqb (Node (x :: r)) (Node (y :: c))), (tree_eqb x y),
    x, y; cbn; eexists; (split; [reflexivity|discriminate]).
Qed.

(** X11: on a dims specification with rectangular sides the permutation
    builder never meets the kind ['other']: [dims_to_tensor_perm] always
    returns a permutation and never raises. *)
Theorem builder_total_on_rectangular_dims (dims : tree) :
  dims_spec dims = true ->
  rect_sides dims = true ->
  exists k p,
    type_from_dims dims false = OK k /\ k <> other /\
    dims_to_tensor_perm dims = OK p /\
    Permutation p (map Z.of_nat (seq 0 (length (flatten dims)))).
Proof.
  intros Hspec Hrect.
  apply dims_spec_sides in Hspec as (row & col & -> & Hrow & Hcol).
  apply is_side_list in Hrow as (x & r & ->).
  apply is_side_list in Hcol as (y & c & ->).
  cbn [rect_sides] in Hrect. apply andb_prop in Hrect as [Hr Hc].
  destruct (type_from_dims_relaxed_kind x r y c Hr Hc) as (k & Hk & Hother).
  destruct (perm_of_kind_returns k (x :: r) (y :: c) Hother) as (p & Hp).
  assert (Hdp : dims_to_tensor_perm (Node [Node (x :: r); Node (y :: c)]) = OK p)
    by (unfold dims_to_tensor_perm; now rewrite Hk).
  exists k, p. repeat split; try assumption.
  rewrite <- labels_of_seq. now apply dims_to_tensor_perm_permutation.
Qed.

Lemma builder_total_on_rectangular_dims_witness :
  exists k p,
    type_from_dims dims_operator_ket false = OK k /\ k <> other /\
    dims_to_tensor_perm dims_operator_ket = OK p /\
    Permutation p (map Z.of_nat (seq 0 (length (flatten dims_operator_ket)))).
Proof.
  apply (builder_total_on_rectangular_dims dims_operator_ket); reflexivity.
Defined.

(** X12: a dims whose second element cannot be read (an int, or a list
    with fewer than two elements) is never classified: [type_from_dims]
    raises, and so does [dims_to_tensor_perm]. *)
Theorem dims_needs_two_sides (dims : tree) (es : bool) (e : error) :
  item dims 1 = Err e ->
  (forall k, type_from_dims dims es <> OK k) /\
  (forall p, dims_to_tensor_perm dims <> OK p).
Proof.
  intros He.
  assert (H : forall es' k, type_from_dims dims es' <> OK k).
  { intros es' k.
    unfold type_from_dims, bra_pattern, ket_pattern, prod_is_1, side_is_list.
    rewrite He. cbn [bind].
    destruct (item dims 0) as [d|]; cbn [bind and_then ite]; [|discriminate].
    destruct (np_prod d) as [p|]; cbn [bind and_then ite]; [|discriminate].
    destruct (p =? 1); cbn; discriminate. }
  split; [apply H|].
  intros p Hp. unfold dims_to_tensor_perm in Hp.
  apply bind_OK in Hp as (k & Hk & _). now apply H in Hk.
Qed.

Lemma dims_needs_two_sides_witness :
  (forall k, type_from_dims (Node [ints [2; 3]]) true <> OK k) /\
  (forall p, dims_to_tensor_perm (Node [ints [2; 3]]) <> OK p).
Proof.
  apply (dims_needs_two_sides (Node [ints [2; 3]]) true IndexError).
  reflexivity.
Defined.

(** X13: an empty column side has product 1: next to a row side that is a
    list starting with an int and of product other than 1 the kind is
    ['ket'], and next to a row side of product 1 the test [dims[1][0]]
    raises [IndexError]. *)
Theorem empty_column_side (row : tree) (es : bool) (p : Z) :
  np_prod row = OK p ->
  type_from_dims (Node [row; Node []]) es =
  if p =? 1 then Err IndexError
  else match row with
       | Node (Leaf _ :: _) => OK ket
       | Node (Node _ :: _) => OK operator_ket
       | Node [] => Err IndexError
       | Leaf _ => OK other
       end.
Proof.
  intros Hp.
  unfold type_from_dims, bra_pattern, ket_pattern, operator_bra_pattern,
    operator_ket_pattern, oper_pattern, super_pattern, prod_is_1,
    side_is_list, first_is_int, first_is_list.
  cbn [item nth_error bind is_list]. rewrite Hp. cbn [bind].
  destruct (p =? 1); [reflexivity|].
  destruct row as [z|[|[x|l] r]]; reflexivity.
Qed.

Lemma empty_column_side_witness :
  type_from_dims (Node [ints [2; 3]; Node []]) true = OK ket.
Proof.
  apply (empty_column_side (ints [2; 3]) true 6). reflexivity.
Defined.

(** * Further properties of the projections *)

Lemma mapM_app {A B} (f : A -> result B) l1 l2 r1 r2 :
  mapM f l1 = OK r1 -> mapM f l2 = OK r2 -> mapM f (l1 ++ l2) = OK (r1 ++ r2).
Proof.
  revert r1. induction l1 as [|a l1 IH]; intros r1 H1 H2.
  - injection H1 as <-. exact H2.
  - cbn [mapM app] in *.
    apply bind_OK in H1 as (b & Hb & H1).
    apply bind_OK in H1 as (bs & Hbs & [= <-]).
    now rewrite Hb, (IH bs Hbs H2).
Qed.

(** Reading a stretch of consecutive positions gives that stretch. *)
Lemma mapM_getitem_zrange {A} (l : list A) :
  forall pre post,
    mapM (getitem (pre ++ l ++ post)) (zrange (Z.of_nat (length pre)) (length l))
    = OK l.
Proof.
  induction l as [|a l IH]; intros pre post; [reflexivity|].
  cbn [length zrange mapM app]. rewrite getitem_middle. cbn [bind].
  replace (Z.of_nat (length pre) + 1) with (Z.of_nat (length (pre ++ [a])))
    by (rewrite length_app; cbn [length]; lia).
  replace (pre ++ a :: l ++ post) with ((pre ++ [a]) ++ l ++ post)
    by now rewrite <- app_assoc.
  now rewrite IH.
Qed.

Lemma mapM_getitem_all {A} (l : list A) :
  mapM (getitem l) (zrange 0 (length l)) = OK l.
Proof.
  pose proof (mapM_getitem_zrange l [] []) as H.
  cbn [app length Z.of_nat] in H. now rewrite app_nil_r in H.
Qed.

Lemma nth_zrange k : forall start n, (k < n)%nat ->
  nth k (zrange start n) 0 = start + Z.of_nat k.
Proof.
  induction k as [|k IH]; intros start n Hk; (destruct n as [|n]; [lia|]);
    cbn [zrange nth].
  - lia.
  - rewrite IH by lia. lia.
Qed.

Lemma perm_at_identity n i :
  0 <= i < Z.of_nat n -> perm_at (zrange 0 n) i = i.
Proof.
  intros Hi. unfold perm_at, index_pos.
  destruct (Z.ltb_spec i 0); [lia|].
  rewrite nth_zrange by lia. lia.
Qed.

Lemma coll_map_identity n c :
  forallb (fun i => (0 <=? i) && (i <? Z.of_nat n)) (leaves c) = true ->
  coll_map (perm_at (zrange 0 n)) c = c.
Proof.
  induction c as [i|k els IH] using coll_nested_ind; intros H.
  - cbn [leaves forallb] in H. rewrite andb_true_r in H.
    apply andb_prop in H as [H0 Hn].
    cbn [coll_map]. rewrite perm_at_identity; [reflexivity|lia].
  - cbn [coll_map leaves] in *. f_equal.
    induction IH as [|el rest Hel _ IHrest]; [reflexivity|].
    cbn [map concat] in *. rewrite forallb_app in H.
    apply andb_prop in H as [H1 H2]. now rewrite Hel, IHrest.
Qed.

Lemma index_ok_nonneg n l :
  forallb (fun i => (0 <=? i) && (i <? n)) l = true ->
  forallb (index_ok n) l = true.
Proof.
  rewrite !forallb_forall. intros H i Hi. specialize (H i Hi).
  unfold index_ok. apply andb_prop in H as [H0 Hn].
  rewrite Hn, andb_true_r. lia.
Qed.

(** X14: for the kinds ['oper'], ['ket'] and ['bra'] nothing is permuted:
    the permutation is [0, 1, ..., N-1], the tensor shape is
    [flatten(dims)], and indices within [0 .. N-1] are returned
    unchanged. *)
Theorem plain_kinds_project_identically (dims : tree) (k : kind)
    (indices : coll) :
  type_from_dims dims false = OK k ->
  in_oper_ket_bra k = true ->
  dims_to_tensor_perm dims = OK (map Z.of_nat (seq 0 (length (flatten dims)))) /\
  dims_to_tensor_shape dims = OK (flatten dims) /\
  (forallb (fun i => (0 <=? i) && (i <? Z.of_nat (length (flatten dims))))
     (leaves indices) = true ->
   dims_idxs_to_tensor_idxs dims indices = OK indices).
Proof.
  intros Hk Hplain.
  assert (Hperm : dims_to_tensor_perm dims = OK (labels_of dims)).
  { unfold dims_to_tensor_perm, perm_of_kind. rewrite Hk. cbn [bind].
    now rewrite Hplain, flatten_enumerate_flat. }
  split; [now rewrite <- labels_of_seq|]. split.
  - unfold dims_to_tensor_shape. rewrite Hperm. cbn [bind].
    apply mapM_getitem_all.
  - intros Hin. unfold dims_idxs_to_tensor_idxs. rewrite Hperm. cbn [bind].
    unfold labels_of in *. rewrite deep_map_getitem, zrange_length.
    rewrite (index_ok_nonneg _ _ Hin). f_equal.
    now apply coll_map_identity.
Qed.

Lemma plain_kinds_project_identically_witness :
  dims_to_tensor_perm dims_oper_23
    = OK (map Z.of_nat (seq 0 (length (flatten dims_oper_23)))) /\
  dims_to_tensor_shape dims_oper_23 = OK (flatten dims_oper_23) /\
  (forallb (fun i => (0 <=? i) && (i <? Z.of_nat (length (flatten dims_oper_23))))
     (leaves (Coll KTuple [Scalar 3; Coll KList [Scalar 0]])) = true ->
   dims_idxs_to_tensor_idxs dims_oper_23
     (Coll KTuple [Scalar 3; Coll KList [Scalar 0]])
   = OK (Coll KTuple [Scalar 3; Coll KList [Scalar 0]])).
Proof.
  apply (plain_kinds_project_identically dims_oper_23 oper
           (Coll KTuple [Scalar 3; Coll KList [Scalar 0]]));
    reflexivity.
Defined.

Lemma flatten_pairs a b c d :
  flatten (Node [Node [a; b]; Node [c; d]])
  = flatten a ++ flatten b ++ flatten c ++ flatten d.
Proof. cbn [flatten map concat]. now rewrite !app_nil_r, <- app_assoc. Qed.

Lemma enumerate_flat_pairs a b c d :
  exists a' b' c' d',
    enumerate_flat (Node [Node [a; b]; Node [c; d]])
      = Node [Node [a'; b']; Node [c'; d']] /\
    flatten a' = zrange 0 (length (flatten a)) /\
    flatten b' = zrange (Z.of_nat (length (flatten a))) (length (flatten b)) /\
    flatten c' = zrange (Z.of_nat (length (flatten a ++ flatten b)))
                   (length (flatten c)) /\
    flatten d' = zrange (Z.of_nat (length (flatten a ++ flatten b ++ flatten c)))
                   (length (flatten d)).
Proof.
  unfold enumerate_flat.
  rewrite _enumerate_flat_Node, !enumerate_loop_cons.
  rewrite !_enumerate_flat_Node, !enumerate_loop_cons.
  cbn [fst snd enumerate_loop].
  do 4 eexists. split; [reflexivity|].
  rewrite !(proj1 (enumerate_spec _ _)), !(proj2 (enumerate_spec _ _)).
  rewrite !length_app, !Nat2Z.inj_add.
  repeat split; f_equal; lia.
Qed.

(** X15: for a ['super'] dims [[[a, b], [c, d]]] the permutation exchanges
    the two halves of each side as blocks: it lists the labels of [b], then
    those of [a], then those of [d], then those of [c]; the tensor shape is
    accordingly the dimensions of [b], [a], [d] and [c], in this order. *)
Theorem super_exchanges_blocks (a b c d : tree) :
  type_from_dims (Node [Node [a; b]; Node [c; d]]) false = OK super ->
  dims_to_tensor_perm (Node [Node [a; b]; Node [c; d]])
    = OK (zrange (Z.of_nat (length (flatten a))) (length (flatten b))
          ++ zrange 0 (length (flatten a))
          ++ zrange (Z.of_nat (length (flatten a ++ flatten b ++ flatten c)))
               (length (flatten d))
          ++ zrange (Z.of_nat (length (flatten a ++ flatten b)))
               (length (flatten c))) /\
  dims_to_tensor_shape (Node [Node [a; b]; Node [c; d]])
    = OK (flatten b ++ flatten a ++ flatten d ++ flatten c).
Proof.
  intros Hk.
  match goal with |- ?P = OK ?perm /\ _ => assert (Hperm : P = OK perm) end.
  { unfold dims_to_tensor_perm, perm_of_kind. rewrite Hk. cbn [bind].
    destruct (enumerate_flat_pairs a b c d)
      as (a' & b' & c' & d' & -> & Ha & Hb & Hc & Hd).
    cbn. now rewrite !app_nil_r, <- app_assoc, Ha, Hb, Hc, Hd. }
  split; [exact Hperm|].
  unfold dims_to_tensor_shape. rewrite Hperm. cbn [bind].
  rewrite flatten_pairs.
  repeat apply mapM_app.
  - apply (mapM_getitem_zrange (flatten b) (flatten a) (flatten c ++ flatten d)).
  - apply (mapM_getitem_zrange (flatten a) []).
  - pose proof (mapM_getitem_zrange (flatten d)
                  (flatten a ++ flatten b ++ flatten c) []) as H.
    now rewrite app_nil_r, <- !app_assoc in H.
  - pose proof (mapM_getitem_zrange (flatten c)
                  (flatten a ++ flatten b) (flatten d)) as H.
    now rewrite <- !app_assoc in H.
Qed.

Lemma super_exchanges_blocks_witness :
  dims_to_tensor_perm dims_super_mixed = OK [2; 3; 0; 1; 6; 7; 4; 5] /\
  dims_to_tensor_shape dims_super_mixed = OK [4; 5; 2; 3; 8; 9; 6; 7].
Proof.
  apply (super_exchanges_blocks (ints [2; 3]) (ints [4; 5])
           (ints [6; 7]) (ints [8; 9])).
  reflexivity.
Defined.

(** X16: the correction undoes itself, for every kind: applied to its own
    result it gives back the labels it started from. *)
Theorem vectorization_correction_involutive (k : kind) (perm perm' : tree) :
  vectorization_correction k perm = OK perm' ->
  vectorization_correction k perm' = OK perm.
Proof.
  unfold vectorization_correction.
  destruct k; cbn [in_operator_ket_super in_operator_bra_super bind];
    try (intros [= <-]; reflexivity).
  - intros H. exact (reverse_branch_involutive _ _ _ H).
  - intros H. apply bind_OK in H as (perm1 & H1 & [= <-]).
    now rewrite (reverse_branch_involutive _ _ _ H1).
  - intros H. apply bind_OK in H as (perm1 & H1 & H0).
    apply reverse_branch_OK in H1 as (l1 & m & l2 & Hlen & -> & ->).
    apply reverse_branch_OK in H0 as (l0 & m0 & l2' & Hlen0 & H & ->).
    destruct l0; [|discriminate].
    destruct l1 as [|x [|]]; try discriminate.
    cbn [app] in *. injection H as -> <-.
    unfold reverse_branch. cbn. now rewrite !rev_involutive.
Qed.

Lemma vectorization_correction_involutive_witness :
  vectorization_correction super
    (Node [Node [ints [2; 3]; ints [0; 1]]; Node [ints [6; 7]; ints [4; 5]]])
  = OK (Node [Node [ints [0; 1]; ints [2; 3]]; Node [ints [4; 5]; ints [6; 7]]]).
Proof.
  apply (vectorization_correction_involutive super
           (Node [Node [ints [0; 1]; ints [2; 3]];
                  Node [ints [4; 5]; ints [6; 7]]])).
  reflexivity.
Defined.

(** X17: an ['operator-ket'] whose column side has one element, and an
    ['operator-bra'] whose row side has one element, get the identity
    permutation: the correction reverses that one-element side and leaves
    the nested side as it is. *)
Theorem vectorized_kinds_with_unit_side (side x : tree) :
  (type_from_dims (Node [side; Node [x]]) false = OK operator_ket ->
   dims_to_tensor_perm (Node [side; Node [x]])
   = OK (map Z.of_nat (seq 0 (length (flatten (Node [side; Node [x]])))))) /\
  (type_from_dims (Node [Node [x]; side]) false = OK operator_bra ->
   dims_to_tensor_perm (Node [Node [x]; side])
   = OK (map Z.of_nat (seq 0 (length (flatten (Node [Node [x]; side])))))).
Proof.
  split; intros Hk; unfold dims_to_tensor_perm, perm_of_kind; rewrite Hk;
    cbn [bind in_oper_ket_bra]; rewrite <- labels_of_seq,
      <- flatten_enumerate_flat.
  - assert (H : vectorization_correction operator_ket
                  (enumerate_flat (Node [side; Node [x]]))
                = OK (enumerate_flat (Node [side; Node [x]]))).
    { unfold enumerate_flat.
      rewrite _enumerate_flat_Node, !enumerate_loop_cons.
      rewrite _enumerate_flat_Node, !enumerate_loop_cons.
      reflexivity. }
    now rewrite H.
  - assert (H : vectorization_correction operator_bra
                  (enumerate_flat (Node [Node [x]; side]))
                = OK (enumerate_flat (Node [Node [x]; side]))).
    { unfold enumerate_flat.
      rewrite _enumerate_flat_Node, !enumerate_loop_cons.
      rewrite _enumerate_flat_Node, !enumerate_loop_cons.
      reflexivity. }
    now rewrite H.
Qed.

Lemma vectorized_kinds_with_unit_side_witness :
  type_from_dims dims_operator_ket false = OK operator_ket /\
  dims_to_tensor_perm dims_operator_ket = OK [0; 1; 2; 3; 4] /\
  type_from_dims dims_operator_bra false = OK operator_bra /\
  dims_to_tensor_perm dims_operator_bra = OK [0; 1; 2; 3; 4].
Proof.
  split; [reflexivity|]. split; [|split; [reflexivity|]].
  - apply (proj1 (vectorized_kinds_with_unit_side
                    (Node [ints [2; 3]; ints [2; 3]]) (Leaf 1))).
    reflexivity.
  - apply (proj2 (vectorized_kinds_with_unit_side
                    (Node [ints [2; 3]; ints [2; 3]]) (Leaf 1))).
    reflexivity.
Defined.

Lemma scalar_index_in_range (dims : tree) (perm : list Z) (i : Z) :
  dims_to_tensor_perm dims = OK perm ->
  0 <= i < Z.of_nat (length perm) ->
  dims_idxs_to_tensor_idxs dims (Scalar i)
  = OK (Scalar (nth (Z.to_nat i) perm 0)).
Proof.
  intros Hperm Hi. unfold dims_idxs_to_tensor_idxs. rewrite Hperm.
  cbn [bind deep_map getitem_coll]. rewrite getitem_spec.
  unfold index_ok, perm_at, index_pos.
  destruct (Z.leb_spec (- Z.of_nat (length perm)) i); [|lia].
  destruct (Z.ltb_spec i (Z.of_nat (length perm))); [|lia].
  destruct (Z.ltb_spec i 0); [lia|]. reflexivity.
Qed.

(** X18: on the positions [0 .. N-1] the index projection is a bijection:
    every tensor position is the image of some dims position, and two
    different dims positions never share a tensor position. *)
Theorem index_projection_bijective (dims : tree) (perm : list Z) :
  dims_to_tensor_perm dims = OK perm ->
  (forall j, 0 <= j < Z.of_nat (length (flatten dims)) ->
     exists i, 0 <= i < Z.of_nat (length (flatten dims)) /\
               dims_idxs_to_tensor_idxs dims (Scalar i) = OK (Scalar j)) /\
  (forall i i' j,
     0 <= i < Z.of_nat (length (flatten dims)) ->
     0 <= i' < Z.of_nat (length (flatten dims)) ->
     dims_idxs_to_tensor_idxs dims (Scalar i) = OK (Scalar j) ->
     dims_idxs_to_tensor_idxs dims (Scalar i') = OK (Scalar j) ->
     i = i').
Proof.
  intros Hperm.
  pose proof (dims_to_tensor_perm_permutation _ _ Hperm) as HP.
  assert (Hlen : length perm = length (flatten dims))
    by (rewrite (Permutation_length HP); apply zrange_length).
  assert (Hnodup : NoDup perm).
  { apply Permutation_NoDup with (l := labels_of dims);
      [now symmetry | apply zrange_NoDup]. }
  split.
  - intros j Hj.
    assert (Hin : In j perm).
    { apply (Permutation_in _ (Permutation_sym HP)), zrange_In. lia. }
    destruct (In_nth perm j 0 Hin) as (n & Hn & Hnth).
    exists (Z.of_nat n). split; [lia|].
    rewrite (scalar_index_in_range dims perm) by (assumption || lia).
    now rewrite Nat2Z.id, Hnth.
  - intros i i' j Hi Hi' H H'.
    rewrite (scalar_index_in_range dims perm) in H by (assumption || lia).
    rewrite (scalar_index_in_range dims perm) in H' by (assumption || lia).
    injection H as H. injection H' as H'.
    assert (Heq : Z.to_nat i = Z.to_nat i').
    { apply (proj1 (NoDup_nth perm 0) Hnodup); lia. }
    lia.
Qed.

Lemma index_projection_bijective_witness :
  dims_to_tensor_perm dims_super_23 = OK [2; 3; 0; 1; 6; 7; 4; 5] /\
  exists i, 0 <= i < Z.of_nat (length (flatten dims_super_23)) /\
            dims_idxs_to_tensor_idxs dims_super_23 (Scalar i) = OK (Scalar 6).
Proof.
  split; [reflexivity|].
  apply (proj1 (index_projection_bijective dims_super_23
                  [2; 3; 0; 1; 6; 7; 4; 5] eq_refl) 6).
  cbn. lia.
Defined.

Lemma mapM_getitem_in_range (l p : list Z) :
  forallb (index_ok (Z.of_nat (length l))) p = true ->
  mapM (getitem l) p = OK (map (perm_at l) p).
Proof.
  induction p as [|i p IH]; [reflexivity|].
  cbn [forallb mapM map]. intros H. apply andb_prop in H as [Hi Hp].
  now rewrite getitem_spec, Hi, (IH Hp).
Qed.

Lemma list_prod_Permutation l l' :
  Permutation l l' -> list_prod l = list_prod l'.
Proof.
  unfold list_prod.
  induction 1 as [|x l l' _ IH|x y l|l l' l'' _ IH1 _ IH2]; cbn [fold_right];
    [reflexivity | now rewrite IH | ring | congruence].
Qed.

(** X19: the tensor shape holds the same dimensions as the dims
    specification, rearranged: it is a permutation of [flatten(dims)] and its
    product is the product of all the dimensions. *)
Theorem tensor_shape_rearranges_dims (dims : tree) (perm : list Z) :
  dims_to_tensor_perm dims = OK perm ->
  exists shape,
    dims_to_tensor_shape dims = OK shape /\
    Permutation shape (flatten dims) /\
    list_prod shape = list_prod (flatten dims).
Proof.
  intros Hperm.
  pose proof (dims_to_tensor_perm_permutation _ _ Hperm) as HP.
  assert (Hok : forallb (index_ok (Z.of_nat (length (flatten dims)))) perm
                = true).
  { apply forallb_forall. intros j Hj.
    apply (Permutation_in _ HP), zrange_In in Hj.
    unfold index_ok. apply andb_true_intro. split; lia. }
  assert (Hshape : Permutation (map (perm_at (flatten dims)) perm)
                     (flatten dims)).
  { rewrite (Permutation_map (perm_at (flatten dims)) HP). unfold labels_of.
    pose proof (map_perm_at_zrange _ [] (flatten dims) (le_n _)) as H.
    cbn [app length Z.of_nat] in H. now rewrite H, firstn_all. }
  exists (map (perm_at (flatten dims)) perm).
  unfold dims_to_tensor_shape. rewrite Hperm. cbn [bind].
  split; [now apply mapM_getitem_in_range|].
  split; [exact Hshape | now apply list_prod_Permutation].
Qed.

Lemma tensor_shape_rearranges_dims_witness :
  exists shape,
    dims_to_tensor_shape dims_super_mixed = OK shape /\
    Permutation shape (flatten dims_super_mixed) /\
    list_prod shape = list_prod (flatten dims_super_mixed).
Proof.
  apply (tensor_shape_rearranges_dims dims_super_mixed
           [2; 3; 0; 1; 6; 7; 4; 5]).
  reflexivity.
Defined.

(** ** [deep_map] *)

(** X20: mapping the function that returns its argument gives back the
    collection, lists and tuples alike, whichever container kinds are
    traversed. *)
Theorem deep_map_identity (over : ckind -> bool) (c : coll) :
  deep_map (fun x => OK x) over c = OK c.
Proof.
  induction c as [i|k els IH] using coll_nested_ind; [reflexivity|].
  rewrite deep_map_Coll. destruct (over k); [|reflexivity].
  assert (H : mapM (deep_map (fun x => OK x) over) els = OK els).
  { induction IH as [|el rest Hel _ IHrest]; [reflexivity|].
    cbn [mapM]. now rewrite Hel, IHrest. }
  now rewrite H.
Qed.

(** * Ragged sides and the role of the dimensions *)

Lemma ints_after_int_rectangular z l :
  forallb (fun e => match e with Leaf z => 0 <? z | Node _ => false end) l
    = true ->
  rectangular (Node (Leaf z :: l)) = true.
Proof.
  intros Hl. unfold rectangular. cbn [np_shape].
  assert (Hall : forallb (fun x => match np_shape x with
                                   | Some s' => shape_eqb [] s'
                                   | None => false
                                   end) l = true).
  { induction l as [|y l IH]; [reflexivity|].
    cbn [forallb] in *. apply andb_prop in Hl as [Hy Hl].
    destruct y as [z'|]; [|discriminate]. cbn. now apply IH. }
  now rewrite Hall.
Qed.

(** A side on which numpy raises starts with a list. *)
Lemma ragged_side_starts_with_list t :
  is_side t = true -> rectangular t = false ->
  exists a l, t = Node (Node a :: l) /\ np_prod t = Err ValueError.
Proof.
  intros Hside Hrag.
  assert (Hprod : np_prod t = Err ValueError).
  { unfold np_prod. unfold rectangular in Hrag.
    now destruct (np_shape t). }
  destruct t as [z|[|[z|a] l]]; try discriminate; [|eauto].
  exfalso. unfold is_side in Hside.
  apply orb_prop in Hside as [Hflat|Hpair].
  - cbn [is_flat_seq] in Hflat.
    rewrite (ints_after_int_rectangular z l Hflat) in Hrag. discriminate.
  - destruct l as [|b [|c l]]; discriminate.
Qed.

(** X21: on a dims specification of the data model the classifier returns
    a kind exactly when both sides are rectangular: when a side is a pair of
    sequences of different lengths, [np.prod] raises on it and both
    [type_from_dims] and [dims_to_tensor_perm] raise [ValueError]. *)
Theorem ragged_side_raises (dims : tree) (es : bool) :
  dims_spec dims = true ->
  rect_sides dims = false ->
  type_from_dims dims es = Err ValueError /\
  dims_to_tensor_perm dims = Err ValueError.
Proof.
  intros Hspec Hrag.
  apply dims_spec_sides in Hspec as (row & col & -> & Hrow & Hcol).
  assert (H : forall es', type_from_dims (Node [row; col]) es' = Err ValueError).
  { intros es'. cbn [rect_sides] in Hrag.
    unfold type_from_dims, bra_pattern, ket_pattern, prod_is_1, side_is_list,
      first_is_int.
    cbn [item nth_error bind].
    destruct (rectangular row) eqn:Erow.
    - cbn [andb] in Hrag.
      destruct (ragged_side_starts_with_list col Hcol Hrag)
        as (a & l & -> & ->).
      unfold rectangular in Erow. unfold np_prod at 1.
      destruct (np_shape row); [|discriminate]. cbn.
      now destruct (np_multiply_reduce (flatten row) =? 1).
    - destruct (ragged_side_starts_with_list row Hrow Erow)
        as (a & l & _ & ->).
      reflexivity. }
  split; [apply H|]. unfold dims_to_tensor_perm. now rewrite H.
Qed.

Lemma ragged_side_raises_witness :
  type_from_dims dims_ragged true = Err ValueError /\
  dims_to_tensor_perm dims_ragged = Err ValueError.
Proof.
  apply (ragged_side_raises dims_ragged true); reflexivity.
Defined.

(** X22: the permutation depends on a dims only through its kind and its
    shape: two dims of the same shape that are classified alike get the same
    permutation, whatever their dimensions. *)
Theorem permutation_depends_on_kind_and_shape (a b : tree) :
  shape_of a = shape_of b ->
  type_from_dims a false = type_from_dims b false ->
  dims_to_tensor_perm a = dims_to_tensor_perm b.
Proof.
  intros Hshape Hkind. unfold dims_to_tensor_perm, perm_of_kind.
  rewrite Hkind. unfold enumerate_flat.
  now rewrite (enumerate_by_shape a b 0 Hshape).
Qed.

Lemma permutation_depends_on_kind_and_shape_witness :
  dims_to_tensor_perm dims_super_23 = dims_to_tensor_perm dims_super_mixed.
Proof.
  apply (permutation_depends_on_kind_and_shape dims_super_23 dims_super_mixed);
    reflexivity.
Defined.
